(** * PantryScanner: change parsing and inventory reconciliation

    A shallow embedding of [src/pantry_scanner.py] ([parse_changes],
    [extract_item_name], [save_to_database], the listing loop of
    [analyze_initial_inventory], [cleanup_old_images]) and of
    [src/database.py] ([save_scan], [add_item], [remove_item], [log_change],
    [get_item_history]), followed by the properties of the reconciliation
    logic.

    Text is a list of 8-bit characters.  The string operations below are
    Python's on ASCII text; the bullet character U+2022 of the parser is its
    three UTF-8 bytes. *)

From Stdlib Require Import List Ascii String ZArith Bool Arith Lia.
Import ListNotations.
Local Open Scope bool_scope.
Local Open Scope list_scope.

(** ** Python [str] *)

Module PyStr.

Definition str := list ascii.

Definition of_string (s : string) : str := list_ascii_of_string s.

Definition code (c : ascii) : nat := nat_of_ascii c.

(** [str.isspace] on one ASCII character: TAB..CR, FS..US and the space.
    [str.strip()] and the regular expression class [\s] use the same set. *)
Definition is_space (c : ascii) : bool :=
  let n := code c in
  ((9 <=? n) && (n <=? 13)) || ((28 <=? n) && (n <=? 32)).

(** The regular expression class [\d] on ASCII. *)
Definition is_digit (c : ascii) : bool :=
  let n := code c in (48 <=? n) && (n <=? 57).

Definition upper_char (c : ascii) : ascii :=
  let n := code c in
  if (97 <=? n) && (n <=? 122) then ascii_of_nat (n - 32) else c.

Definition lower_char (c : ascii) : ascii :=
  let n := code c in
  if (65 <=? n) && (n <=? 90) then ascii_of_nat (n + 32) else c.

Definition upper (s : str) : str := map upper_char s.
Definition lower (s : str) : str := map lower_char s.

Definition eqb_char (a b : ascii) : bool := Ascii.eqb a b.

Fixpoint eqb (a b : str) : bool :=
  match a, b with
  | [], [] => true
  | x :: a', y :: b' => eqb_char x y && eqb a' b'
  | _, _ => false
  end.

(** [s.startswith(p)] *)
Fixpoint startswith (p s : str) : bool :=
  match p, s with
  | [], _ => true
  | x :: p', y :: s' => eqb_char x y && startswith p' s'
  | _ :: _, [] => false
  end.

(** [sub in s] *)
Fixpoint contains (sub s : str) : bool :=
  startswith sub s ||
  match s with
  | [] => false
  | _ :: s' => contains sub s'
  end.

(** [s.lstrip(chars)] and [s.rstrip(chars)], with the character set given as
    a predicate. *)
Fixpoint lstrip_by (p : ascii -> bool) (s : str) : str :=
  match s with
  | c :: s' => if p c then lstrip_by p s' else s
  | [] => []
  end.

Fixpoint rstrip_by (p : ascii -> bool) (s : str) : str :=
  match s with
  | [] => []
  | c :: s' =>
      match rstrip_by p s' with
      | [] => if p c then [] else [c]
      | r => c :: r
      end
  end.

(** [s.strip()] *)
Definition strip (s : str) : str := rstrip_by is_space (lstrip_by is_space s).

(** [s.rstrip(chars)] *)
Definition mem_char (chars : str) (c : ascii) : bool :=
  existsb (eqb_char c) chars.

Definition rstrip_chars (chars : str) (s : str) : str :=
  rstrip_by (mem_char chars) s.

Definition cons_hd (c : ascii) (l : list str) : list str :=
  match l with
  | p :: ps => (c :: p) :: ps
  | [] => [[c]]
  end.

(** [s.split(sep)] for a non-empty separator: occurrences are found left to
    right and do not overlap; [skip] counts the characters of a separator
    that was just matched and are still to be passed over. *)
Fixpoint split_go (sep : str) (skip : nat) (s : str) : list str :=
  match s with
  | [] => [[]]
  | c :: s' =>
      match skip with
      | S k => split_go sep k s'
      | O =>
          if startswith sep s
          then [] :: split_go sep (List.length sep - 1) s'
          else cons_hd c (split_go sep 0 s')
      end
  end.

Definition split (sep s : str) : list str := split_go sep 0 s.

(** [s.replace(old, new)] for a non-empty [old]. *)
Fixpoint replace_go (old new : str) (skip : nat) (s : str) : str :=
  match s with
  | [] => []
  | c :: s' =>
      match skip with
      | S k => replace_go old new k s'
      | O =>
          if startswith old s
          then new ++ replace_go old new (List.length old - 1) s'
          else c :: replace_go old new 0 s'
      end
  end.

Definition replace (old new s : str) : str := replace_go old new 0 s.

(** [s[:n]] *)
Definition slice_to (n : nat) (s : str) : str := firstn n s.

(** The last character of [s] satisfies [p]. *)
Fixpoint ends_in (p : ascii -> bool) (s : str) : bool :=
  match s with
  | [] => false
  | [c] => p c
  | _ :: s' => ends_in p s'
  end.

(** The first character of [s], if any, is not white space. *)
Definition head_ok (s : str) : bool :=
  match s with
  | c :: _ => negb (is_space c)
  | [] => true
  end.

End PyStr.

Import PyStr.
Notation "'$' s" := (of_string s) (at level 1, format "'$' s").

(** ** [PantryScanner.extract_item_name] *)

(** One round of the loop over the separators:
    [if separator in item: item = item.split(separator)[0].strip()]. *)
Definition truncate_at (separator : str) (item : str) : str :=
  if contains separator item
  then strip (hd [] (split separator item))
  else item.

Definition separators : list str := [$" - "; $" ("; $"  "].

(** The loop [for separator in [' - ', ' (', '  ']]. *)
Definition truncate (item : str) : str :=
  fold_left (fun it separator => truncate_at separator it) separators item.

Definition extract_item_name (full_description : str) : str :=
  let item := strip full_description in
  let item := truncate item in
  let item := rstrip_chars $".,;:" item in
  if 100 <? List.length item then strip (slice_to 100 item) else item.

(** ** [PantryScanner.parse_changes] *)

Inductive section := Added | Removed | Changed.

(** The dictionary [changes], whose keys are fixed. *)
Record Changes := mkChanges {
  added : list str;
  removed : list str;
  changed : list str
}.

Definition no_changes : Changes := mkChanges [] [] [].

(** [changes[current_section].append(item)] *)
Definition append_to (sec : section) (item : str) (c : Changes) : Changes :=
  match sec with
  | Added => mkChanges (added c ++ [item]) (removed c) (changed c)
  | Removed => mkChanges (added c) (removed c ++ [item]) (changed c)
  | Changed => mkChanges (added c) (removed c) (changed c ++ [item])
  end.

Definition bullet : str := $"•".

(** [re.match(r'^\d+\.', line)] *)
Definition match_numbering (line : str) : bool :=
  let rest := lstrip_by is_digit line in
  negb (List.length rest =? List.length line) && startswith $"." rest.

Definition is_mark (c : ascii) : bool := mem_char $"-*." c || is_digit c.

(** The longest prefix made of characters of the class [[-*•\d.]] is
    dropped; the bullet is matched as its three bytes. *)
Fixpoint drop_marks (s : str) : str :=
  match s with
  | [] => []
  | c :: s1 =>
      if is_mark c then drop_marks s1
      else
        match s1 with
        | c2 :: c3 :: s3 =>
            if eqb [c; c2; c3] bullet then drop_marks s3 else s
        | _ => s
        end
  end.

(** [re.sub(r'^[-*•\d.]+\s*', '', line)] *)
Definition strip_marks (line : str) : str :=
  let rest := drop_marks line in
  if List.length rest =? List.length line then line
  else lstrip_by is_space rest.

Definition is_bullet_line (line : str) : bool :=
  startswith $"-" line || startswith $"*" line || startswith bullet line
  || match_numbering line.

Definition no_change_phrases : list str :=
  [$"none"; $"none detected"; $"no changes detected"].

Definition is_empty (s : str) : bool :=
  match s with [] => true | _ => false end.

(** The three section headers of the [if]/[elif] chain. *)
Definition header_of (line : str) : option section :=
  if contains $"ADDED" (upper line) && contains $"ITEM" (upper line)
  then Some Added
  else if contains $"REMOVED" (upper line) && contains $"ITEM" (upper line)
  then Some Removed
  else if contains $"QUANTITY" (upper line) && contains $"CHANGED" (upper line)
  then Some Changed
  else None.

(** The last [elif] of the chain. *)
Definition is_reset_line (line : str) : bool :=
  startswith $"#" line || startswith $"**Summary" line
  || contains $"Items Unchanged" line.

(** The item a bullet line yields, if any. *)
Definition item_of (line : str) : option str :=
  if is_bullet_line line then
    let item := strip (strip_marks line) in
    let item := replace $"**" [] item in
    if negb (is_empty item)
       && negb (existsb (eqb (lower item)) no_change_phrases)
    then Some item
    else None
  else None.

(** The body of [for line in lines], on the pair of [current_section] and
    [changes]. *)
Definition parse_line (st : option section * Changes) (raw : str)
  : option section * Changes :=
  let line := strip raw in
  let '(current_section, changes) := st in
  match header_of line with
  | Some sec => (Some sec, changes)
  | None =>
      if is_reset_line line then (None, changes)
      else
        match current_section with
        | Some sec =>
            if negb (is_empty line) then
              match item_of line with
              | Some item => (current_section, append_to sec item changes)
              | None => st
              end
            else st
        | None => st
        end
  end.

(** The separator of [analysis_text.split('\n')]. *)
Definition newline : str := [ascii_of_nat 10].

Definition parse_lines (lines : list str) (st : option section * Changes)
  : option section * Changes :=
  fold_left parse_line lines st.

Definition parse_changes (analysis_text : str) : Changes :=
  snd (parse_lines (split newline analysis_text) (None, no_changes)).

(** ** The PostgreSQL tables of [PantryDatabase.create_tables] *)

Local Open Scope Z_scope.

(** Timestamps are readings of the server clock. *)
Definition timestamp := Z.

Record Scan := mkScan {
  scan_id : Z;
  scan_date : timestamp;
  image_path : option str;
  raw_analysis : str;
  api_cost : Z;            (* DECIMAL(10, 6), in millionths *)
  input_tokens : Z;
  output_tokens : Z
}.

Record Item := mkItem {
  item_id : Z;
  item_name : str;
  category : option str;
  first_detected : timestamp;
  last_seen : timestamp;
  current_quantity : Z;
  is_active : bool
}.

Record Change := mkChange {
  change_id : Z;
  change_scan_id : Z;
  change_item_name : str;
  change_type : str;
  details : option str;
  detected_at : timestamp
}.

(** Rows are kept in the order a sequential scan returns them. *)
Record Database := mkDatabase {
  pantry_scans : list Scan;
  pantry_items : list Item;
  inventory_changes : list Change
}.

(** The three [SERIAL] sequences; they are not transactional. *)
Record Seqs := mkSeqs {
  next_scan_id : Z;
  next_item_id : Z;
  next_change_id : Z
}.

(** What psycopg2 raises. *)
Inductive exn :=
| OperationalError          (* the server cannot be reached *)
| StringDataRightTruncation (* value too long for VARCHAR(n) *)
| NumericValueOutOfRange    (* INTEGER or DECIMAL out of range *)
| ForeignKeyViolation.      (* REFERENCES pantry_scans(scan_id) *)

Definition int4_min : Z := -2147483648.
Definition int4_max : Z := 2147483647.

Definition in_int4 (z : Z) : bool := (int4_min <=? z) && (z <=? int4_max).

Definition fits (n : nat) (s : str) : bool := (List.length s <=? n)%nat.

Definition fits_opt (n : nat) (s : option str) : bool :=
  match s with Some s => fits n s | None => true end.

(** A statement reads the clock and the sequences and works on the tables
    of the open transaction. *)
Definition Stmt (A : Type) : Type :=
  timestamp -> Seqs -> Database -> exn + (A * Seqs * Database).

(** [LOWER(item_name) = LOWER(%s)] *)
Definition name_eq (name : str) (r : Item) : bool :=
  eqb (lower (item_name r)) (lower name).

(** [pattern LIKE text] of PostgreSQL: [%] is any run of characters, [_]
    any one character, and a backslash makes the next character literal.
    A pattern that ends in a lone backslash is an error in PostgreSQL; the
    patterns built below end in [%]. *)
Fixpoint like (pattern : str) : str -> bool :=
  match pattern with
  | [] => fun text => is_empty text
  | c :: p' =>
      if eqb_char c "%" then
        fix any (text : str) : bool :=
          like p' text ||
          match text with
          | [] => false
          | _ :: text' => any text'
          end
      else if eqb_char c "_" then
        fun text =>
          match text with
          | [] => false
          | _ :: text' => like p' text'
          end
      else if eqb_char c "\" then
        match p' with
        | [] => fun _ => false
        | d :: p'' =>
            fun text =>
              match text with
              | [] => false
              | x :: text' => eqb_char x d && like p'' text'
              end
        end
      else
        fun text =>
          match text with
          | [] => false
          | x :: text' => eqb_char x c && like p' text'
          end
  end.

(** [LOWER(item_name) LIKE LOWER(%s) AND is_active = TRUE] with the
    parameter [f'%{item_name}%']. *)
Definition name_like (name : str) (r : Item) : bool :=
  like (lower ($"%" ++ name ++ $"%")) (lower (item_name r)) && is_active r.

(** [INSERT INTO pantry_scans (...) VALUES (...) RETURNING scan_id] *)
Definition insert_scan (image_path : option str) (raw_analysis : str)
    (api_cost input_tokens output_tokens : Z) : Stmt Z :=
  fun now sq db =>
    if negb (fits_opt 500 image_path) then inl StringDataRightTruncation
    else if negb ((Z.abs api_cost <? 10000000000)
                  && in_int4 input_tokens && in_int4 output_tokens)
    then inl NumericValueOutOfRange
    else
      let id := next_scan_id sq in
      let row := mkScan id now image_path raw_analysis api_cost
                   input_tokens output_tokens in
      inr (id,
           mkSeqs (id + 1) (next_item_id sq) (next_change_id sq),
           mkDatabase (pantry_scans db ++ [row]) (pantry_items db)
             (inventory_changes db)).

(** [SELECT item_id FROM pantry_items WHERE LOWER(item_name) = LOWER(%s)]
    followed by [fetchone()]. *)
Definition select_item (name : str) : Stmt (option Z) :=
  fun now sq db =>
    inr (option_map item_id (find (name_eq name) (pantry_items db)), sq, db).

(** The [SET] clause of the update in [add_item]. *)
Definition seen_again (now : timestamp) (r : Item) : Item :=
  mkItem (item_id r) (item_name r) (category r) (first_detected r)
    now (current_quantity r + 1) true.

(** The [SET] clause of the updates in [remove_item]; the right-hand sides
    read the row as it was. *)
Definition taken_away (now : timestamp) (r : Item) : Item :=
  mkItem (item_id r) (item_name r) (category r) (first_detected r)
    now (Z.max (current_quantity r - 1) 0)
    (if current_quantity r <=? 1 then false else true).

Definition has_id (id : Z) (r : Item) : bool := item_id r =? id.

(** [UPDATE pantry_items SET ... WHERE cond RETURNING item_id]: every row
    that satisfies [cond] is rewritten in place, and the statement fails as
    a whole when a new quantity leaves the INTEGER range. *)
Definition update_items (cond : Item -> bool) (set : Item -> Item)
    (arith_ok : Item -> bool) (db : Database) : exn + (list Z * Database) :=
  let hit := filter cond (pantry_items db) in
  if forallb arith_ok hit then
    inr (map item_id hit,
         mkDatabase (pantry_scans db)
           (map (fun r => if cond r then set r else r) (pantry_items db))
           (inventory_changes db))
  else inl NumericValueOutOfRange.

Definition update_seen (id : Z) : Stmt unit :=
  fun now sq db =>
    match update_items (has_id id) (seen_again now)
            (fun r => in_int4 (current_quantity r + 1)) db with
    | inl e => inl e
    | inr (_, db') => inr (tt, sq, db')
    end.

(** [INSERT INTO pantry_items (item_name, category) VALUES (%s, %s)
    RETURNING item_id]; the other columns take their defaults. *)
Definition insert_item (name : str) (category : option str) : Stmt Z :=
  fun now sq db =>
    if negb (fits 200 name && fits_opt 100 category)
    then inl StringDataRightTruncation
    else
      let id := next_item_id sq in
      let row := mkItem id name category now now 1 true in
      inr (id,
           mkSeqs (next_scan_id sq) (id + 1) (next_change_id sq),
           mkDatabase (pantry_scans db) (pantry_items db ++ [row])
             (inventory_changes db)).

(** The two updates of [remove_item], each followed by [fetchone()]. *)
Definition update_taken (cond : Item -> bool) : Stmt (option Z) :=
  fun now sq db =>
    match update_items cond (taken_away now)
            (fun r => in_int4 (current_quantity r - 1)) db with
    | inl e => inl e
    | inr (ids, db') => inr (hd_error ids, sq, db')
    end.

(** [SELECT item_id FROM pantry_items WHERE LOWER(item_name) LIKE LOWER(%s)
    AND is_active = TRUE LIMIT 1] followed by [fetchone()]. *)
Definition select_like (name : str) : Stmt (option Z) :=
  fun now sq db =>
    inr (option_map item_id (find (name_like name) (pantry_items db)), sq, db).

(** [INSERT INTO inventory_changes (scan_id, item_name, change_type, details)
    VALUES (%s, %s, %s, %s)] *)
Definition insert_change (scan : Z) (name change_type : str)
    (details : option str) : Stmt unit :=
  fun now sq db =>
    if negb (in_int4 scan) then inl NumericValueOutOfRange
    else if negb (fits 200 name && fits 20 change_type)
    then inl StringDataRightTruncation
    else if negb (existsb (fun s => scan_id s =? scan) (pantry_scans db))
    then inl ForeignKeyViolation
    else
      let id := next_change_id sq in
      let row := mkChange id scan name change_type details now in
      inr (tt,
           mkSeqs (next_scan_id sq) (next_item_id sq) (id + 1),
           mkDatabase (pantry_scans db) (pantry_items db)
             (inventory_changes db ++ [row])).

(** ** The connection and the console *)

(** The lines the code prints. *)
Inductive Line :=
| SavedScanRecord (id : Z)
| ErrorSavingScan (e : exn)
| ErrorAddingItem (e : exn)
| FuzzyMatchedRemoval (name : str)
| ItemNotFoundForRemoval (name : str)
| ErrorRemovingItem (e : exn)
| ErrorLoggingChange (e : exn)
| SavedToDatabase (n_added n_removed n_changed : nat)
| ErrorSavingToDatabase (e : exn).

(** [durable] is what has been committed.  psycopg2 opens a transaction at
    the first statement after a commit or rollback; [session] holds its
    tables while it is open.  [faults] tells, statement by statement,
    whether the server can be reached ([true]: the statement raises
    [OperationalError]); past its end no statement fails that way.
    [clock] is the time [NOW()] returns, held fixed over a run. *)
Record World := mkWorld {
  durable : Database;
  session : option Database;
  seqs : Seqs;
  console : list Line;
  faults : list bool;
  clock : timestamp
}.

(** A connection on which no transaction is open. *)
Definition idle (db : Database) (sq : Seqs) (out : list Line)
    (fl : list bool) (now : timestamp) : World :=
  mkWorld db None sq out fl now.

(** The tables the next statement sees. *)
Definition view (w : World) : Database :=
  match session w with
  | Some db => db
  | None => durable w
  end.

Inductive outcome (A : Type) :=
| Ok (a : A)
| Raised (e : exn).
Arguments Ok {A} a.
Arguments Raised {A} e.

Definition M (A : Type) : Type := World -> outcome A * World.

Definition ret {A} (a : A) : M A := fun w => (Ok a, w).

Definition bind {A B} (m : M A) (k : A -> M B) : M B :=
  fun w =>
    match m w with
    | (Ok a, w') => k a w'
    | (Raised e, w') => (Raised e, w')
    end.

Definition raise {A} (e : exn) : M A := fun w => (Raised e, w).

(** [try: body except Exception as e: handler(e)] *)
Definition try_except {A} (body : M A) (handler : exn -> M A) : M A :=
  fun w =>
    match body w with
    | (Ok a, w') => (Ok a, w')
    | (Raised e, w') => handler e w'
    end.

Notation "x <- m ;; k" := (bind m (fun x => k))
  (at level 61, m at next level, right associativity).
Notation "m ;; k" := (bind m (fun _ => k))
  (at level 61, right associativity).

Definition print (l : Line) : M unit :=
  fun w =>
    (Ok tt,
     mkWorld (durable w) (session w) (seqs w) (console w ++ [l]) (faults w)
       (clock w)).

(** [cursor.execute(...)] *)
Definition execute {A} (stmt : Stmt A) : M A :=
  fun w =>
    let db := view w in
    let rest := tl (faults w) in
    if hd false (faults w) then
      (Raised OperationalError,
       mkWorld (durable w) (Some db) (seqs w) (console w) rest (clock w))
    else
      match stmt (clock w) (seqs w) db with
      | inl e =>
          (Raised e,
           mkWorld (durable w) (Some db) (seqs w) (console w) rest (clock w))
      | inr (a, sq', db') =>
          (Ok a, mkWorld (durable w) (Some db') sq' (console w) rest (clock w))
      end.

(** [self.conn.commit()] *)
Definition commit : M unit :=
  fun w =>
    (Ok tt, mkWorld (view w) None (seqs w) (console w) (faults w) (clock w)).

(** [self.conn.rollback()] *)
Definition rollback : M unit :=
  fun w =>
    (Ok tt,
     mkWorld (durable w) None (seqs w) (console w) (faults w) (clock w)).

(** [for x in xs: body(x)] *)
Fixpoint for_each {A} (xs : list A) (body : A -> M unit) : M unit :=
  match xs with
  | [] => ret tt
  | x :: xs' => body x ;; for_each xs' body
  end.

(** ** [PantryDatabase] *)

Definition save_scan (image_path : option str) (raw_analysis : str)
    (api_cost input_tokens output_tokens : Z) : M Z :=
  try_except
    (scan_id <- execute (insert_scan image_path raw_analysis api_cost
                           input_tokens output_tokens) ;;
     commit ;;
     print (SavedScanRecord scan_id) ;;
     ret scan_id)
    (fun e => rollback ;; print (ErrorSavingScan e) ;; raise e).

Definition add_item (item_name : str) (category : option str) : M Z :=
  try_except
    (existing <- execute (select_item item_name) ;;
     item_id <- match existing with
                | Some id => execute (update_seen id) ;; ret id
                | None => execute (insert_item item_name category)
                end ;;
     commit ;;
     ret item_id)
    (fun e => rollback ;; print (ErrorAddingItem e) ;; raise e).

Definition remove_item (item_name : str) : M unit :=
  try_except
    (result <- execute (update_taken (name_eq item_name)) ;;
     result <- match result with
               | Some _ => ret result
               | None =>
                   found <- execute (select_like item_name) ;;
                   match found with
                   | Some id =>
                       result <- execute (update_taken (has_id id)) ;;
                       match result with
                       | Some _ => print (FuzzyMatchedRemoval item_name)
                       | None => ret tt
                       end ;;
                       ret result
                   | None => ret None
                   end
               end ;;
     commit ;;
     match result with
     | Some _ => ret tt
     | None => print (ItemNotFoundForRemoval item_name)
     end)
    (fun e => rollback ;; print (ErrorRemovingItem e) ;; raise e).

Definition log_change (scan_id : Z) (item_name change_type : str)
    (details : option str) : M unit :=
  try_except
    (execute (insert_change scan_id item_name change_type details) ;;
     commit)
    (fun e => rollback ;; print (ErrorLoggingChange e) ;; raise e).

(** ** [PantryScanner.save_to_database] *)

(** The bodies of the three loops. *)
Definition save_added (scan_id : Z) (item : str) : M unit :=
  let clean_name := extract_item_name item in
  add_item clean_name None ;;
  log_change scan_id clean_name $"added" (Some item).

Definition save_removed (scan_id : Z) (item : str) : M unit :=
  let clean_name := extract_item_name item in
  remove_item clean_name ;;
  log_change scan_id clean_name $"removed" (Some item).

Definition save_changed (scan_id : Z) (item : str) : M unit :=
  let clean_name := extract_item_name item in
  log_change scan_id clean_name $"quantity_changed" (Some item).

(** [has_db] is [self.db] being set. *)
Definition save_to_database (has_db : bool) (image_path : option str)
    (analysis_text : str) (api_cost input_tokens output_tokens : Z)
  : M unit :=
  if negb has_db then ret tt
  else
    try_except
      (scan_id <- save_scan image_path analysis_text api_cost input_tokens
                    output_tokens ;;
       let changes := parse_changes analysis_text in
       for_each (added changes) (save_added scan_id) ;;
       for_each (removed changes) (save_removed scan_id) ;;
       for_each (changed changes) (save_changed scan_id) ;;
       print (SavedToDatabase (List.length (added changes))
                (List.length (removed changes))
                (List.length (changed changes))))
      (fun e => print (ErrorSavingToDatabase e)).

(** ** Notions used in the statements *)

Local Open Scope nat_scope.

Definition is_prefix (t s : str) : Prop := exists r, s = t ++ r.

(** The characters of [rstrip('.,;:')]. *)
Definition is_punct (c : ascii) : bool := mem_char $".,;:" c.

Definition is_space_or_punct (c : ascii) : bool := is_space c || is_punct c.

(** The text before the first occurrence of [sep], or all of it. *)
Fixpoint before (sep s : str) : str :=
  match s with
  | [] => []
  | c :: s' => if startswith sep s then [] else c :: before sep s'
  end.

(** The normalizer in the words of the specification, without the removal
    of bold markers: the position of the first occurrence of a separator is
    searched ([str.find]), the text is cut there, and trailing characters
    are trimmed from the reversed text. *)
Module NormalizerSpec.

Fixpoint first_index (sep s : str) : option nat :=
  if startswith sep s then Some 0
  else
    match s with
    | [] => None
    | _ :: s' => option_map S (first_index sep s')
    end.

Definition trim_right (p : ascii -> bool) (s : str) : str :=
  rev (lstrip_by p (rev s)).

Definition trim (s : str) : str := trim_right is_space (lstrip_by is_space s).

Definition cut_at (sep s : str) : str :=
  match first_index sep s with
  | Some i => trim (firstn i s)
  | None => s
  end.

Definition normalize (description : str) : str :=
  let name := trim description in
  let name := cut_at $"  " (cut_at $" (" (cut_at $" - " name)) in
  let name := trim_right is_punct name in
  if List.length name <=? 100 then name else trim (firstn 100 name).

End NormalizerSpec.

(** The value of [item] after the loop and [rstrip]. *)
Definition trimmed (full_description : str) : str :=
  rstrip_chars $".,;:" (truncate (strip full_description)).

(** An operation is atomic when it leaves no transaction open and, if it
    raises, has changed nothing that is committed and has printed its error
    line. *)
Definition atomic {A} (m : M A) (err : exn -> Line) : Prop :=
  forall db sq out fl now,
    let res := m (idle db sq out fl now) in
    session (snd res) = None
    /\ clock (snd res) = now
    /\ forall e, fst res = Raised e ->
         durable (snd res) = db /\ console (snd res) = out ++ [err e].

(** A statement keeps a property of the tables. *)
Definition keeps {A} (P : Database -> Prop) (s : Stmt A) : Prop :=
  forall now sq db a sq' db',
    s now sq db = inr (a, sq', db') -> P db -> P db'.

(** An operation keeps a property of the committed tables, whatever its
    outcome. *)
Definition preserves {A} (P : Database -> Prop) (m : M A) : Prop :=
  forall db sq out fl now,
    P db -> P (durable (snd (m (idle db sq out fl now)))).

(** The invariant of the data model on one row. *)
Definition item_ok (r : Item) : Prop :=
  (0 <= current_quantity r)%Z
  /\ (is_active r = true <-> (0 < current_quantity r)%Z).

Definition items_ok (db : Database) : Prop := Forall item_ok (pantry_items db).

(** Add and remove events, run one after the other by a caller that goes on
    whatever the outcome of each. *)
Inductive Op :=
| OpAdd (name : str) (category : option str)
| OpRemove (name : str).

Definition run_op (o : Op) : M unit :=
  match o with
  | OpAdd name category => add_item name category ;; ret tt
  | OpRemove name => remove_item name
  end.

Fixpoint run_ops (ops : list Op) (w : World) : World :=
  match ops with
  | [] => w
  | o :: ops' => run_ops ops' (snd (run_op o w))
  end.

(** The rows of [pantry_items] after the exact-match update of a removal. *)
Definition exact_removal (name : str) (now : timestamp) (items : list Item)
  : list Item :=
  map (fun r => if name_eq name r then taken_away now r else r) items.

Local Open Scope Z_scope.

(** The scans table is touched by [save_scan] alone. *)
Definition scans_are (S : list Scan) (db : Database) : Prop :=
  pantry_scans db = S.

(** The items table is touched by [add_item] and [remove_item] alone. *)
Definition items_are (L : list Item) (db : Database) : Prop :=
  pantry_items db = L.

(** An operation that leaves no transaction open and keeps [P]. *)
Definition steady {A} (P : Database -> Prop) (m : M A) : Prop :=
  forall w, session w = None -> P (durable w) ->
    session (snd (m w)) = None /\ P (durable (snd (m w))).

(** What [save_to_database] does once the scan row is saved. *)
Definition save_events (scan_id : Z) (changes : Changes) : M unit :=
  for_each (added changes) (save_added scan_id) ;;
  for_each (removed changes) (save_removed scan_id) ;;
  for_each (changed changes) (save_changed scan_id) ;;
  print (SavedToDatabase (List.length (added changes))
           (List.length (removed changes))
           (List.length (changed changes))).

(** ** The calls of a scan *)

(** The calls that [save_to_database] makes on the database once the scan
    row is saved. *)
Inductive Call :=
| CallAddItem (item_name : str)
| CallRemoveItem (item_name : str)
| CallLogChange (scan_id : Z) (item_name change_type : str)
    (details : option str).

Definition call (c : Call) : M unit :=
  match c with
  | CallAddItem name => add_item name None ;; ret tt
  | CallRemoveItem name => remove_item name
  | CallLogChange scan name kind det => log_change scan name kind det
  end.

(** The line a call prints when it raises. *)
Definition call_error (c : Call) : exn -> Line :=
  match c with
  | CallAddItem _ => ErrorAddingItem
  | CallRemoveItem _ => ErrorRemovingItem
  | CallLogChange _ _ _ _ => ErrorLoggingChange
  end.

Definition calls_added (scan_id : Z) (item : str) : list Call :=
  let clean_name := extract_item_name item in
  [CallAddItem clean_name; CallLogChange scan_id clean_name $"added" (Some item)].

Definition calls_removed (scan_id : Z) (item : str) : list Call :=
  let clean_name := extract_item_name item in
  [CallRemoveItem clean_name;
   CallLogChange scan_id clean_name $"removed" (Some item)].

Definition calls_changed (scan_id : Z) (item : str) : list Call :=
  [CallLogChange scan_id (extract_item_name item) $"quantity_changed" (Some item)].

(** The calls of a scan in the order of the three loops. *)
Definition calls_of (scan_id : Z) (changes : Changes) : list Call :=
  flat_map (calls_added scan_id) (added changes)
  ++ flat_map (calls_removed scan_id) (removed changes)
  ++ flat_map (calls_changed scan_id) (changed changes).

(** ** The quantity of one item *)








(** A scan that adds two items, on an empty database whose server stops
    answering at the fifth statement. *)
Definition two_items : str :=
  $"ADDED ITEMS:" ++ newline ++ $"- Milk" ++ newline ++ $"- Eggs".

Definition empty_db : Database := mkDatabase [] [] [].

Definition lost_at_fifth : World :=
  idle empty_db (mkSeqs 1 1 1) [] [false; false; false; false; true] 7.

(** The quantity is an INTEGER above the bottom of the range, so that
    [current_quantity - 1] can be computed. *)
Definition decrementable (r : Item) : Prop :=
  int4_min < current_quantity r <= int4_max.

Definition one_scan_db : Database :=
  mkDatabase [mkScan 1 0 None [] 0 0 0] [] [].

Definition bottle_db : Database :=
  mkDatabase []
    [mkItem 1 $"Water bottle" None 1 2 0 false;
     mkItem 2 $"Children's water bottle with red spout" None 3 4 2 true]
    [].

(** The characters that [LIKE] does not take literally. *)
Definition is_wildcard (c : ascii) : bool :=
  eqb_char c "%" || eqb_char c "_" || eqb_char c "\".

Definition plain (name : str) : bool := forallb (fun c => negb (is_wildcard c)) name.

Definition juice_db : Database :=
  mkDatabase [] [mkItem 1 $"Tropicana 100 percent orange juice" None 1 2 1 true] [].

Local Open Scope nat_scope.

Local Open Scope Z_scope.

(** ** More of the change extractor *)

(** [l'] is [l] with more at its end. *)
Definition grows {A} (l l' : list A) : Prop := exists r, l' = l ++ r.

Definition changes_grow (c c' : Changes) : Prop :=
  grows (added c) (added c') /\ grows (removed c) (removed c')
  /\ grows (changed c) (changed c').

(** What every extracted item is: not empty, free of bold markers, and not
    one of the phrases for "nothing". *)
Definition valid_item (item : str) : Prop :=
  item <> []
  /\ contains $"**" item = false
  /\ existsb (PyStr.eqb (lower item)) no_change_phrases = false.

Definition valid_changes (c : Changes) : Prop :=
  Forall valid_item (added c) /\ Forall valid_item (removed c)
  /\ Forall valid_item (changed c).

(** [sep.join(parts)] *)
Fixpoint join (sep : str) (parts : list str) : str :=
  match parts with
  | [] => []
  | [p] => p
  | p :: rest => p ++ sep ++ join sep rest
  end.

(** An analysis written the way the parser reads it: each section is its
    header followed by one dash line per item. *)
Definition section_lines (header : str) (items : list str) : list str :=
  header :: map (fun item => $"- " ++ item) items.

Definition report_lines (c : Changes) : list str :=
  section_lines $"ADDED ITEMS:" (added c)
  ++ section_lines $"REMOVED ITEMS:" (removed c)
  ++ section_lines $"QUANTITY CHANGED:" (changed c).

Definition report (c : Changes) : str := join newline (report_lines c).

(** An item text that a dash line carries unchanged: it is not empty, has
    no white space at either end, no line break and no bold marker, is not
    a phrase for "nothing", and its line reads neither as a section header
    nor as a line that ends a section. *)
Definition reportable (item : str) : bool :=
  negb (is_empty item)
  && head_ok item
  && negb (ends_in is_space item)
  && negb (contains newline item)
  && negb (contains $"**" item)
  && negb (existsb (PyStr.eqb (lower item)) no_change_phrases)
  && match header_of ($"- " ++ item) with None => true | Some _ => false end
  && negb (is_reset_line ($"- " ++ item)).

Definition reportable_changes (c : Changes) : Prop :=
  forallb reportable (added c) = true
  /\ forallb reportable (removed c) = true
  /\ forallb reportable (changed c) = true.

(** ** Properties of the tables that every operation keeps *)

(** The scans and the change records that are there stay there. *)
Definition history_kept (S : list Scan) (C : list Change) (db : Database)
  : Prop :=
  grows S (pantry_scans db) /\ grows C (inventory_changes db).

(** What identifies a row of [pantry_items]: no statement of the code
    writes these columns of an existing row. *)
Definition identity (r : Item) : Z * str * option str * timestamp :=
  (item_id r, item_name r, category r, first_detected r).

Definition items_kept (L : list Item) (db : Database) : Prop :=
  grows (map identity L) (map identity (pantry_items db)).

(** No two rows carry the same name up to letter case. *)
Definition names_unique (db : Database) : Prop :=
  NoDup (map (fun r => lower (item_name r)) (pantry_items db)).

(** Every change record belongs to a scan that is in [pantry_scans]. *)
Definition has_scan (db : Database) (c : Change) : bool :=
  existsb (fun s => scan_id s =? change_scan_id c) (pantry_scans db).

Definition changes_have_scans (db : Database) : Prop :=
  Forall (fun c => has_scan db c = true) (inventory_changes db).

(** A property that all statements of the code keep. *)
Definition kept_by_statements (P : Database -> Prop) : Prop :=
  (forall path text cost tin tout, keeps P (insert_scan path text cost tin tout))
  /\ (forall id, keeps P (update_seen id))
  /\ (forall cond, keeps P (update_taken cond))
  /\ (forall scan name kind det, keeps P (insert_change scan name kind det)).

(** ** Quantities *)

(** The quantity is a value of the INTEGER column. *)
Definition quantity_in_range (r : Item) : Prop :=
  int4_min <= current_quantity r <= int4_max.

Definition quantities_in_range (db : Database) : Prop :=
  Forall quantity_in_range (pantry_items db).

(** The row with the last-seen time moved to [now]. *)
Definition touched (now : timestamp) (r : Item) : Item :=
  mkItem (item_id r) (item_name r) (category r) (first_detected r) now
    (current_quantity r) (is_active r).

(** No two rows carry the same id ([item_id] is the primary key). *)
Definition ids_unique (db : Database) : Prop :=
  NoDup (map item_id (pantry_items db)).

(** The test of the fallback once [LIKE] has no wildcard to read. *)
Definition holds_name (name : str) (r : Item) : bool :=
  contains (lower name) (lower (item_name r)) && is_active r.

(** ** A scan on a sound connection *)

(** What a change record says, its id and time aside. *)
Definition entry (c : Change) : Z * str * str * option str :=
  (change_scan_id c, change_item_name c, change_type c, details c).

(** The records of one loop of [save_to_database]. *)
Definition entries_of (kind : str) (scan : Z) (items : list str)
  : list (Z * str * str * option str) :=
  map (fun item => (scan, extract_item_name item, kind, Some item)) items.

Definition scan_entries (scan : Z) (c : Changes)
  : list (Z * str * str * option str) :=
  entries_of $"added" scan (added c)
  ++ entries_of $"removed" scan (removed c)
  ++ entries_of $"quantity_changed" scan (changed c).

(** The quantity can be decremented and is at most [B]. *)
Definition bounded (B : Z) (r : Item) : Prop :=
  int4_min < current_quantity r <= B.

(** A connection with no transaction open and no fault ahead, whose tables
    hold the scans [Sc], change records that say [E], and quantities up to
    [B]. *)
Definition sound (Sc : list Scan) (E : list (Z * str * str * option str))
    (B : Z) (w : World) : Prop :=
  session w = None
  /\ faults w = []
  /\ pantry_scans (durable w) = Sc
  /\ map entry (inventory_changes (durable w)) = E
  /\ Forall (bounded B) (pantry_items (durable w)).

(** ** [PantryDatabase.get_item_history] *)

(** A row of the result: change type, details, detection time, scan date. *)
Definition history_row : Type := str * option str * timestamp * timestamp.

Definition detected (h : history_row) : timestamp := snd (fst h).

(** [ORDER BY ic.detected_at DESC]: rows detected at the same time are
    left in the order the join yields them (PostgreSQL leaves their order
    open). *)
Fixpoint insert_desc (h : history_row) (l : list history_row)
  : list history_row :=
  match l with
  | [] => [h]
  | x :: l' =>
      if detected x <? detected h then h :: l else x :: insert_desc h l'
  end.

Fixpoint sort_desc (l : list history_row) : list history_row :=
  match l with
  | [] => []
  | h :: l' => insert_desc h (sort_desc l')
  end.

(** [FROM inventory_changes ic JOIN pantry_scans ps ON ic.scan_id =
    ps.scan_id WHERE LOWER(ic.item_name) = LOWER(%s)] *)
Definition joined (name : str) (db : Database) : list history_row :=
  flat_map
    (fun c =>
       if PyStr.eqb (lower (change_item_name c)) (lower name)
       then map (fun s => (change_type c, details c, detected_at c, scan_date s))
              (filter (fun s => scan_id s =? change_scan_id c) (pantry_scans db))
       else [])
    (inventory_changes db).

Definition select_history (name : str) : Stmt (list history_row) :=
  fun now sq db => inr (sort_desc (joined name db), sq, db).

(** The query is run and its rows are returned; nothing is caught and
    nothing is committed. *)
Definition get_item_history (item_name : str) : M (list history_row) :=
  execute (select_history item_name).

(** Detection times do not go up along the list. *)
Fixpoint newest_first (l : list history_row) : Prop :=
  match l with
  | [] => True
  | h :: l' => (forall x, In x l' -> detected x <= detected h) /\ newest_first l'
  end.

(** ** [PantryScanner.analyze_initial_inventory]: reading the listing *)

(** The body of the loop over the lines of the response: a line that
    starts with a dash gives the item [line.lstrip('- ').strip()], unless
    that is empty. *)
Definition initial_item (raw : str) : option str :=
  let line := strip raw in
  if startswith $"-" line then
    let item := strip (lstrip_by (mem_char $"- ") line) in
    if is_empty item then None else Some item
  else None.

Fixpoint initial_items_of (lines : list str) : list str :=
  match lines with
  | [] => []
  | raw :: lines' =>
      match initial_item raw with
      | Some item => item :: initial_items_of lines'
      | None => initial_items_of lines'
      end
  end.

Definition initial_items (response_text : str) : list str :=
  initial_items_of (split newline response_text).

(** A line of a listing: an item behind a dash, or text of another kind. *)
Inductive ListingLine :=
| ItemLine (item : str)
| OtherLine (text : str).

Definition listing_line (l : ListingLine) : str :=
  match l with
  | ItemLine item => $"- " ++ item
  | OtherLine text => text
  end.

Definition listing_text (ls : list ListingLine) : str :=
  join newline (map listing_line ls).

(** The items of a listing, in its order. *)
Definition listed (ls : list ListingLine) : list str :=
  flat_map (fun l => match l with
                     | ItemLine item => [item]
                     | OtherLine _ => []
                     end) ls.

(** What a line has to be for the listing to be read as it was written:
    an item is not empty, has no white space at either end, no line break,
    and no dash at its start; other text has no line break and, white
    space at its ends aside, does not start with a dash or is made of
    dashes and blanks only. *)
Definition listable (l : ListingLine) : bool :=
  match l with
  | ItemLine item =>
      negb (is_empty item) && head_ok item && negb (ends_in is_space item)
      && negb (contains newline item) && negb (startswith $"-" item)
  | OtherLine text =>
      negb (contains newline text)
      && (negb (startswith $"-" (strip text))
          || forallb (mem_char $"- ") (strip text))
  end.

Definition shelf_listing : list ListingLine :=
  [OtherLine $"Here is what I can see:"; OtherLine [];
   ItemLine $"Kellogg's Froot Loops - 1 box"; ItemLine $"**Milk** (1 gallon)";
   OtherLine $"  ---  "; OtherLine $"Top shelf - cans";
   ItemLine $"Coke"].

(** ** [PantryScanner.cleanup_old_images] *)

(** [config.CURRENT_IMAGE] and [config.PREVIOUS_IMAGE]; the module
    [pantry_config] is not part of the sources. *)
Record ImageConfig := mkImageConfig {
  CURRENT_IMAGE : str;
  PREVIOUS_IMAGE : str
}.

(** An entry of the image directory: its name, and whether
    [os.path.isfile] holds of it. *)
Record DirEntry := mkDirEntry {
  entry_name : str;
  entry_is_file : bool
}.

(** [s.endswith(suffix)] *)
Definition endswith (suffix s : str) : bool := startswith (rev suffix) (rev s).

Definition files_to_keep (config : ImageConfig) : list str :=
  [CURRENT_IMAGE config; PREVIOUS_IMAGE config; $"test_capture.jpg"].

(** The two tests of the loop: a regular file whose name ends in [.jpg]
    and is not one to keep. *)
Definition to_delete (config : ImageConfig) (e : DirEntry) : bool :=
  (entry_is_file e && endswith $".jpg" (entry_name e))
  && negb (existsb (PyStr.eqb (entry_name e)) (files_to_keep config)).

(** [os.remove] of the entry of that name. *)
Definition remove_entry (name : str) (dir : list DirEntry) : list DirEntry :=
  filter (fun e => negb (PyStr.eqb (entry_name e) name)) dir.

(** The loop over the listing taken at the start.  [fl] tells, call by
    call, whether [os.remove] raises; the result is the directory and the
    count of deletions, or nothing for the count if a call has raised. *)
Fixpoint cleanup_loop (config : ImageConfig) (listing : list DirEntry)
    (dir : list DirEntry) (deleted_count : nat) (fl : list bool)
  : list DirEntry * option nat :=
  match listing with
  | [] => (dir, Some deleted_count)
  | e :: listing' =>
      if to_delete config e then
        if hd false fl then (dir, None)
        else cleanup_loop config listing' (remove_entry (entry_name e) dir)
               (S deleted_count) (tl fl)
      else cleanup_loop config listing' dir deleted_count fl
  end.

(** What the function prints. *)
Inductive CleanupLine :=
| CleanedUp (deleted_count : nat)
| ErrorCleaningUp.

(** The directory afterwards and the lines printed. *)
Definition cleanup_old_images (config : ImageConfig) (dir : list DirEntry)
    (fl : list bool) : list DirEntry * list CleanupLine :=
  match cleanup_loop config dir dir 0 fl with
  | (dir', Some deleted_count) =>
      (dir', if (0 <? deleted_count)%nat then [CleanedUp deleted_count] else [])
  | (dir', None) => (dir', [ErrorCleaningUp])
  end.

(** The names in a directory differ. *)
Definition entry_names_unique (dir : list DirEntry) : Prop :=
  NoDup (map entry_name dir).

Definition coke_twice : str :=
  $"ADDED ITEMS:" ++ newline ++ $"- Coke" ++ newline ++ $"- COKE (can)".

Definition full_shelf : Database :=
  mkDatabase [] [mkItem 1 $"Milk" None 0 0 2147483647 true] [].

Definition two_rows : Database :=
  mkDatabase []
    [mkItem 1 $"Coke" None 1 2 3 true; mkItem 2 $"Milk" None 1 2 0 false] [].

(** The new row for [name] with quantity [q], behind the rows [items]. *)
Definition with_row (db : Database) (id : Z) (name : str) (now : timestamp)
    (q : Z) : Database :=
  mkDatabase (pantry_scans db)
    (pantry_items db ++ [mkItem id name None now now q true])
    (inventory_changes db).

Definition bottles : Database :=
  mkDatabase []
    [mkItem 1 $"Water bottle rack" None 1 2 0 false;
     mkItem 2 $"Children's water bottle with red spout" None 1 2 1 true;
     mkItem 3 $"Poland Spring WATER BOTTLE" None 1 2 4 true]
    [].

Definition week_text : str :=
  $"ADDED ITEMS:" ++ newline ++ $"- Kellogg's Froot Loops - 1 box" ++ newline
  ++ $"REMOVED ITEMS:" ++ newline ++ $"- milk" ++ newline
  ++ $"QUANTITY CHANGED:" ++ newline ++ $"- Coke (3 -> 2)".

Definition logged_db : Database :=
  mkDatabase
    [mkScan 1 10 None [] 0 0 0; mkScan 2 20 None [] 0 0 0]
    [mkItem 1 $"Milk" None 10 20 0 false]
    [mkChange 1 1 $"Milk" $"added" (Some $"Milk (1 gallon)") 11;
     mkChange 2 2 $"milk" $"removed" (Some $"milk") 21;
     mkChange 3 2 $"Eggs" $"added" (Some $"Eggs") 21].

Definition bottle_scan_db : Database :=
  mkDatabase [mkScan 1 5 None [] 0 0 0]
    [mkItem 2 $"Children's water bottle with red spout" None 1 2 1 true]
    [mkChange 1 1 $"Children's water bottle with red spout" $"added" None 5].

Definition image_dir_example : list DirEntry :=
  [mkDirEntry $"current.jpg" true; mkDirEntry $"previous.jpg" true;
   mkDirEntry $"pantry_20260101_080000.jpg" true; mkDirEntry $"notes.txt" true;
   mkDirEntry $"old.jpg" false].

Definition image_config_example : ImageConfig :=
  mkImageConfig $"current.jpg" $"previous.jpg".

Local Open Scope nat_scope.

(** * Properties *)

(** ** Strings *)

Lemma eqb_char_eq a b : eqb_char a b = true <-> a = b.
Proof. apply Ascii.eqb_eq. Qed.

Lemma str_eqb_eq a b : PyStr.eqb a b = true <-> a = b.
Proof.
  revert b; induction a as [|x a IH]; intros [|y b]; simpl;
    try (split; [discriminate | congruence]); try tauto.
  rewrite andb_true_iff, eqb_char_eq, IH.
  split; [intros [-> ->]; reflexivity | intros H; inversion H; auto].
Qed.

Lemma startswith_iff p s : startswith p s = true <-> is_prefix p s.
Proof.
  revert s; induction p as [|x p IH]; intros s; simpl.
  - split; [intros _; exists s; reflexivity | reflexivity].
  - destruct s as [|y s].
    + split; [discriminate | intros [r H]; discriminate].
    + rewrite andb_true_iff, eqb_char_eq, IH. split.
      * intros [-> [r ->]]. exists r. reflexivity.
      * intros [r H]. inversion H; subst. split; [reflexivity | exists r; reflexivity].
Qed.

Lemma is_prefix_refl s : is_prefix s s.
Proof. exists []. now rewrite app_nil_r. Qed.

Lemma is_prefix_trans a b c : is_prefix a b -> is_prefix b c -> is_prefix a c.
Proof. intros [r ->] [r' ->]. exists (r ++ r'). now rewrite app_assoc. Qed.

Lemma is_prefix_nil s : is_prefix [] s.
Proof. exists s. reflexivity. Qed.

Lemma is_prefix_cons c t s : is_prefix t s -> is_prefix (c :: t) (c :: s).
Proof. intros [r ->]. exists r. reflexivity. Qed.

Lemma is_prefix_length t s : is_prefix t s -> List.length t <= List.length s.
Proof. intros [r ->]. rewrite length_app. lia. Qed.

Lemma is_prefix_firstn n s : is_prefix (firstn n s) s.
Proof. exists (skipn n s). symmetry. apply firstn_skipn. Qed.

Lemma contains_iff sub s :
  contains sub s = true <-> exists a b, s = a ++ sub ++ b.
Proof.
  induction s as [|c s IH]; simpl.
  - rewrite orb_false_r, startswith_iff. split.
    + intros [r H]. exists [], r. exact H.
    + intros (a & b & H). destruct a; simpl in H.
      * exists b. exact H.
      * discriminate.
  - rewrite orb_true_iff, IH. fold (startswith sub (c :: s)).
    rewrite startswith_iff. split.
    + intros [[r H] | (a & b & ->)].
      * exists [], r. exact H.
      * exists (c :: a), b. reflexivity.
    + intros (a & b & H). destruct a as [|x a]; simpl in H.
      * left. exists b. exact H.
      * right. inversion H; subst. exists a, b. reflexivity.
Qed.

Lemma contains_false_iff sub s :
  contains sub s = false <-> ~ exists a b, s = a ++ sub ++ b.
Proof. rewrite <- contains_iff. destruct (contains sub s); split; congruence. Qed.

(** A text inside which [sub] does not occur has no part in which it does. *)
Lemma contains_part sub l t r :
  contains sub (l ++ t ++ r) = false -> contains sub t = false.
Proof.
  rewrite !contains_false_iff. intros H (a & b & ->). apply H.
  exists (l ++ a), (b ++ r). now rewrite <- !app_assoc.
Qed.

Lemma contains_prefix sub t s :
  is_prefix t s -> contains sub s = false -> contains sub t = false.
Proof. intros [r ->] H. apply (contains_part sub [] t r). exact H. Qed.

Lemma lstrip_by_suffix p s : exists l, s = l ++ lstrip_by p s.
Proof.
  induction s as [|c s [l IH]]; simpl.
  - exists []. reflexivity.
  - destruct (p c).
    + exists (c :: l). simpl. congruence.
    + exists []. reflexivity.
Qed.

Lemma rstrip_by_prefix p s : is_prefix (rstrip_by p s) s.
Proof.
  induction s as [|c s IH]; simpl.
  - apply is_prefix_nil.
  - destruct (rstrip_by p s) as [|x r].
    + destruct (p c); [apply is_prefix_nil | apply is_prefix_cons, is_prefix_nil].
    + apply is_prefix_cons, IH.
Qed.

Lemma contains_strip sub s :
  contains sub s = false -> contains sub (strip s) = false.
Proof.
  intros H. unfold strip.
  apply (contains_prefix sub _ (lstrip_by is_space s)); [apply rstrip_by_prefix|].
  destruct (lstrip_by_suffix is_space s) as [l E].
  apply (contains_part sub l _ []). rewrite app_nil_r, <- E. exact H.
Qed.

Lemma lstrip_head_ok s : head_ok s = true -> lstrip_by is_space s = s.
Proof.
  destruct s as [|c s]; simpl; [reflexivity|].
  intros H. apply negb_true_iff in H. now rewrite H.
Qed.

Lemma head_ok_lstrip s : head_ok (lstrip_by is_space s) = true.
Proof.
  induction s as [|c s IH]; simpl; [reflexivity|].
  destruct (is_space c) eqn:E; [exact IH | simpl; now rewrite E].
Qed.

Lemma head_ok_prefix t s : is_prefix t s -> head_ok s = true -> head_ok t = true.
Proof. intros [r ->]. destruct t; simpl; auto. Qed.

Lemma head_ok_strip s : head_ok (strip s) = true.
Proof.
  unfold strip. eapply head_ok_prefix; [apply rstrip_by_prefix | apply head_ok_lstrip].
Qed.

Lemma strip_prefix s : head_ok s = true -> is_prefix (strip s) s.
Proof.
  intros H. unfold strip. rewrite (lstrip_head_ok s H). apply rstrip_by_prefix.
Qed.

Lemma rstrip_by_fixed p s : ends_in p s = false -> rstrip_by p s = s.
Proof.
  induction s as [|c s IH]; [reflexivity|].
  destruct s as [|d s].
  - simpl. intros ->. reflexivity.
  - intros H. change (ends_in p (c :: d :: s)) with (ends_in p (d :: s)) in H.
    change (rstrip_by p (c :: d :: s))
      with (match rstrip_by p (d :: s) with
            | [] => if p c then [] else [c]
            | r => c :: r
            end).
    rewrite (IH H). reflexivity.
Qed.

Lemma ends_in_rstrip_by p s : ends_in p (rstrip_by p s) = false.
Proof.
  induction s as [|c s IH]; [reflexivity|].
  simpl. destruct (rstrip_by p s) as [|x r] eqn:E.
  - destruct (p c) eqn:Ec; simpl; auto.
  - exact IH.
Qed.

Lemma ends_in_weaken (p q : ascii -> bool) s :
  (forall c, p c = true -> q c = true) -> ends_in q s = false -> ends_in p s = false.
Proof.
  intros Hpq. induction s as [|c s IH]; [reflexivity|].
  destruct s as [|d s].
  - simpl. intros H. destruct (p c) eqn:E; [apply Hpq in E; congruence | reflexivity].
  - exact IH.
Qed.

Lemma strip_fixed s :
  head_ok s = true -> ends_in is_space s = false -> strip s = s.
Proof.
  intros H1 H2. unfold strip. rewrite (lstrip_head_ok s H1).
  now apply rstrip_by_fixed.
Qed.

Lemma ends_in_strip s : ends_in is_space (strip s) = false.
Proof. apply ends_in_rstrip_by. Qed.

(** ** [split] and the text before a separator *)

Lemma hd_cons_hd c l : hd [] (cons_hd c l) = c :: hd [] l.
Proof. destruct l; reflexivity. Qed.

Lemma hd_split sep s : hd [] (split sep s) = before sep s.
Proof.
  unfold split. induction s as [|c s IH]; [reflexivity|].
  simpl split_go. simpl before. fold (startswith sep (c :: s)).
  destruct (startswith sep (c :: s)); [reflexivity|].
  now rewrite hd_cons_hd, IH.
Qed.

Lemma before_prefix sep s : is_prefix (before sep s) s.
Proof.
  induction s as [|c s IH]; simpl; [apply is_prefix_nil|].
  fold (startswith sep (c :: s)).
  destruct (startswith sep (c :: s)); [apply is_prefix_nil | apply is_prefix_cons, IH].
Qed.

Lemma startswith_false_prefix p t s :
  is_prefix t s -> startswith p s = false -> startswith p t = false.
Proof.
  intros Hts Hs. destruct (startswith p t) eqn:E; [|reflexivity].
  apply startswith_iff in E.
  assert (H : startswith p s = true)
    by (apply startswith_iff; eapply is_prefix_trans; eassumption).
  congruence.
Qed.

Lemma before_no_sep sep s : sep <> [] -> contains sep (before sep s) = false.
Proof.
  intros Hsep. induction s as [|c s IH].
  - destruct sep; [congruence | reflexivity].
  - simpl before. fold (startswith sep (c :: s)).
    destruct (startswith sep (c :: s)) eqn:E.
    + destruct sep; [congruence | reflexivity].
    + simpl contains. fold (startswith sep (c :: before sep s)).
      rewrite IH, orb_false_r.
      eapply startswith_false_prefix; [|exact E].
      apply is_prefix_cons, before_prefix.
Qed.

Lemma before_absent sep s : contains sep s = false -> before sep s = s.
Proof.
  induction s as [|c s IH]; [reflexivity|].
  simpl. fold (startswith sep (c :: s)). intros H.
  apply orb_false_iff in H. destruct H as [H1 H2].
  rewrite H1, (IH H2). reflexivity.
Qed.

(** ** The name normalizer *)

Lemma truncate_at_no_sep sep item :
  sep <> [] -> contains sep (truncate_at sep item) = false.
Proof.
  intros Hsep. unfold truncate_at.
  destruct (contains sep item) eqn:E; [|exact E].
  rewrite hd_split. apply contains_strip, before_no_sep, Hsep.
Qed.

Lemma truncate_at_keeps_absent sub sep item :
  contains sub item = false -> contains sub (truncate_at sep item) = false.
Proof.
  intros H. unfold truncate_at.
  destruct (contains sep item); [|exact H].
  rewrite hd_split. apply contains_strip.
  eapply contains_prefix; [apply before_prefix | exact H].
Qed.

Lemma truncate_at_prefix sep item :
  head_ok item = true ->
  is_prefix (truncate_at sep item) item /\ head_ok (truncate_at sep item) = true.
Proof.
  intros H. unfold truncate_at.
  destruct (contains sep item); [|split; [apply is_prefix_refl | exact H]].
  rewrite hd_split. split; [|apply head_ok_strip].
  eapply is_prefix_trans; [|apply before_prefix].
  apply strip_prefix. eapply head_ok_prefix; [apply before_prefix | exact H].
Qed.

Lemma truncate_at_absent sep item :
  contains sep item = false -> truncate_at sep item = item.
Proof. intros H. unfold truncate_at. now rewrite H. Qed.

Lemma truncate_unfold item :
  truncate item =
  truncate_at $"  " (truncate_at $" (" (truncate_at $" - " item)).
Proof. reflexivity. Qed.

Lemma truncate_no_sep item :
  contains $" - " (truncate item) = false
  /\ contains $" (" (truncate item) = false
  /\ contains $"  " (truncate item) = false.
Proof.
  rewrite truncate_unfold. repeat split.
  - do 2 apply truncate_at_keeps_absent. apply truncate_at_no_sep. discriminate.
  - apply truncate_at_keeps_absent. apply truncate_at_no_sep. discriminate.
  - apply truncate_at_no_sep. discriminate.
Qed.

Lemma truncate_prefix item :
  head_ok item = true ->
  is_prefix (truncate item) item /\ head_ok (truncate item) = true.
Proof.
  intros H. rewrite truncate_unfold.
  destruct (truncate_at_prefix $" - " item H) as [P1 H1].
  destruct (truncate_at_prefix $" (" _ H1) as [P2 H2].
  destruct (truncate_at_prefix $"  " _ H2) as [P3 H3].
  split; [|exact H3].
  eapply is_prefix_trans; [exact P3|]. eapply is_prefix_trans; eassumption.
Qed.

Lemma truncate_fixed item :
  contains $" - " item = false -> contains $" (" item = false ->
  contains $"  " item = false -> truncate item = item.
Proof.
  intros H1 H2 H3. rewrite truncate_unfold.
  now rewrite (truncate_at_absent _ _ H1), (truncate_at_absent _ _ H2),
    (truncate_at_absent _ _ H3).
Qed.

Lemma extract_item_name_unfold s :
  extract_item_name s =
  if 100 <? List.length (trimmed s) then strip (slice_to 100 (trimmed s))
  else trimmed s.
Proof. reflexivity. Qed.

Lemma trimmed_prefix s :
  is_prefix (trimmed s) (strip s) /\ head_ok (trimmed s) = true.
Proof.
  destruct (truncate_prefix (strip s) (head_ok_strip s)) as [P H].
  assert (Q : is_prefix (trimmed s) (truncate (strip s)))
    by apply rstrip_by_prefix.
  split; [eapply is_prefix_trans; eassumption|].
  eapply head_ok_prefix; eassumption.
Qed.

Lemma extract_item_name_prefix s :
  is_prefix (extract_item_name s) (trimmed s)
  /\ head_ok (extract_item_name s) = true.
Proof.
  destruct (trimmed_prefix s) as [P H]. rewrite extract_item_name_unfold.
  destruct (100 <? List.length (trimmed s)).
  - split; [|apply head_ok_strip].
    eapply is_prefix_trans; [|apply is_prefix_firstn].
    apply strip_prefix. eapply head_ok_prefix; [apply is_prefix_firstn | exact H].
  - split; [apply is_prefix_refl | exact H].
Qed.

Lemma extract_item_name_length s : List.length (extract_item_name s) <= 100.
Proof.
  rewrite extract_item_name_unfold.
  destruct (100 <? List.length (trimmed s)) eqn:E.
  - assert (H : is_prefix (strip (slice_to 100 (trimmed s))) (slice_to 100 (trimmed s))).
    { apply strip_prefix. eapply head_ok_prefix; [apply is_prefix_firstn|].
      apply trimmed_prefix. }
    apply is_prefix_length in H. unfold slice_to in *.
    rewrite length_firstn in H. lia.
  - apply Nat.ltb_ge in E. exact E.
Qed.

Lemma extract_item_name_no_sep s :
  contains $" - " (extract_item_name s) = false
  /\ contains $" (" (extract_item_name s) = false
  /\ contains $"  " (extract_item_name s) = false.
Proof.
  destruct (truncate_no_sep (strip s)) as (H1 & H2 & H3).
  assert (P : is_prefix (extract_item_name s) (truncate (strip s))).
  { eapply is_prefix_trans; [apply extract_item_name_prefix|].
    apply rstrip_by_prefix. }
  repeat split; eapply contains_prefix; eassumption.
Qed.

(** A text on which no step of the normalizer has anything to do. *)
Lemma extract_item_name_fixed t :
  head_ok t = true ->
  contains $" - " t = false -> contains $" (" t = false ->
  contains $"  " t = false ->
  ends_in is_space_or_punct t = false ->
  List.length t <= 100 ->
  extract_item_name t = t.
Proof.
  intros Hh H1 H2 H3 He Hl.
  assert (Es : ends_in is_space t = false).
  { eapply ends_in_weaken; [|exact He].
    intros c Hc. unfold is_space_or_punct. now rewrite Hc. }
  assert (Ep : ends_in (mem_char $".,;:") t = false).
  { eapply ends_in_weaken; [|exact He].
    intros c Hc. unfold is_space_or_punct, is_punct. rewrite Hc. apply orb_true_r. }
  rewrite extract_item_name_unfold. unfold trimmed.
  rewrite (strip_fixed t Hh Es), (truncate_fixed t H1 H2 H3).
  unfold rstrip_chars. rewrite (rstrip_by_fixed _ t Ep).
  apply Nat.leb_le in Hl. rewrite Nat.ltb_antisym, Hl. reflexivity.
Qed.

Lemma ends_in_proper_prefix p t s :
  is_prefix t s -> ends_in p s = true -> ends_in p t = false ->
  List.length t < List.length s.
Proof.
  intros [r ->] Hs Ht. rewrite length_app.
  destruct r as [|x r]; [|simpl; lia].
  rewrite app_nil_r in Hs. congruence.
Qed.

Lemma ends_in_orb p q s :
  ends_in (fun c => p c || q c) s = true ->
  ends_in p s = true \/ ends_in q s = true.
Proof.
  induction s as [|c s IH]; [discriminate|].
  destruct s as [|d s]; [simpl; apply orb_true_iff | exact IH].
Qed.

(** C10: the output of the name normalizer contains none of the three
    separators, so the loop over the separators leaves it as it is. *)
Theorem extract_item_name_separator_free (s : str) :
  contains $" - " (extract_item_name s) = false
  /\ contains $" (" (extract_item_name s) = false
  /\ contains $"  " (extract_item_name s) = false
  /\ truncate (extract_item_name s) = extract_item_name s.
Proof.
  destruct (extract_item_name_no_sep s) as (H1 & H2 & H3).
  repeat split; try assumption. now apply truncate_fixed.
Qed.

(** Normalizing the output of the normalizer gives that output back
    exactly when the output does not end in white space or in one of the
    characters [.,;:]: [rstrip] is not followed by a [strip], as the cuts
    before and after it are, and the cut at 100 characters is not followed
    by an [rstrip]. *)
Lemma extract_item_name_idempotent_iff (s : str) :
  extract_item_name (extract_item_name s) = extract_item_name s
  <-> ends_in is_space_or_punct (extract_item_name s) = false.
Proof.
  set (out := extract_item_name s).
  assert (Hh : head_ok out = true) by apply extract_item_name_prefix.
  destruct (extract_item_name_no_sep s) as (H1 & H2 & H3). fold out in H1, H2, H3.
  split.
  - intros Hfix. destruct (ends_in is_space_or_punct out) eqn:E; [|reflexivity].
    exfalso.
    assert (P1 : is_prefix (extract_item_name out) (trimmed out))
      by apply extract_item_name_prefix.
    assert (P2 : is_prefix (trimmed out) (strip out)) by apply trimmed_prefix.
    assert (P3 : is_prefix (strip out) out) by now apply strip_prefix.
    assert (L : List.length (trimmed out) < List.length out).
    { apply ends_in_orb in E. destruct E as [E | E].
      - apply is_prefix_length in P2.
        pose proof (ends_in_proper_prefix _ _ _ P3 E (ends_in_strip out)). lia.
      - eapply ends_in_proper_prefix; [|exact E|apply ends_in_rstrip_by].
        eapply is_prefix_trans; eassumption. }
    apply is_prefix_length in P1. rewrite Hfix in P1. lia.
  - intros E. apply extract_item_name_fixed; try assumption.
    apply extract_item_name_length.
Qed.

(** An output that ends in neither is a fixed point. *)
Example extract_item_name_idempotent_on_doc_example :
  extract_item_name
    (extract_item_name
       $"Germ-X hand sanitizer - 1 bottle (moisturizing original...)")
  = extract_item_name
      $"Germ-X hand sanitizer - 1 bottle (moisturizing original...)".
Proof.
  apply (proj2 (extract_item_name_idempotent_iff
    $"Germ-X hand sanitizer - 1 bottle (moisturizing original...)")).
  vm_compute. reflexivity.
Qed.

(** C6 at the description "Milk .": it is normalized to "Milk " (the full
    stop goes, the space before it stays), and "Milk " in turn to "Milk",
    so that normalizing the output does not give the output back. *)
Theorem extract_item_name_not_idempotent :
  extract_item_name $"Milk ." = $"Milk "
  /\ extract_item_name (extract_item_name $"Milk .") = $"Milk"
  /\ extract_item_name (extract_item_name $"Milk .")
     <> extract_item_name $"Milk .".
Proof.
  split; [vm_compute; reflexivity|].
  split; [vm_compute; reflexivity|].
  vm_compute. discriminate.
Qed.

(** ** The normalizer against its description *)

Lemma first_index_spec sep s :
  match NormalizerSpec.first_index sep s with
  | Some i => contains sep s = true /\ firstn i s = before sep s
  | None => contains sep s = false
  end.
Proof.
  induction s as [|c s IH].
  - simpl. destruct (startswith sep []) eqn:E; simpl; rewrite ?E; auto.
  - simpl NormalizerSpec.first_index. simpl contains. simpl before.
    fold (startswith sep (c :: s)).
    destruct (startswith sep (c :: s)); [auto|].
    destruct (NormalizerSpec.first_index sep s) as [i|]; simpl.
    + destruct IH as [-> ->]. auto.
    + exact IH.
Qed.

Lemma lstrip_by_snoc p l c :
  lstrip_by p (l ++ [c]) =
  match lstrip_by p l with
  | [] => if p c then [] else [c]
  | r => r ++ [c]
  end.
Proof.
  induction l as [|x l IH]; simpl; [reflexivity|].
  destruct (p x); [exact IH | reflexivity].
Qed.

Lemma trim_right_rstrip_by p s : NormalizerSpec.trim_right p s = rstrip_by p s.
Proof.
  unfold NormalizerSpec.trim_right. induction s as [|c s IH]; [reflexivity|].
  simpl rev. rewrite lstrip_by_snoc. simpl rstrip_by. rewrite <- IH.
  destruct (lstrip_by p (rev s)) as [|x r].
  - simpl. destruct (p c); reflexivity.
  - rewrite rev_unit. simpl rev. destruct (rev r ++ [x]) eqn:E; [|reflexivity].
    destruct (rev r); discriminate.
Qed.

Lemma trim_strip s : NormalizerSpec.trim s = strip s.
Proof. apply trim_right_rstrip_by. Qed.

Lemma cut_at_truncate_at sep s : NormalizerSpec.cut_at sep s = truncate_at sep s.
Proof.
  unfold NormalizerSpec.cut_at, truncate_at.
  pose proof (first_index_spec sep s) as H.
  destruct (NormalizerSpec.first_index sep s) as [i|].
  - destruct H as [-> E]. now rewrite trim_strip, hd_split, E.
  - now rewrite H.
Qed.

(** C5, as the code has it: the normalizer strips surrounding white space,
    cuts the text at the first occurrence of [" - "], then of [" ("], then
    of two spaces (stripping white space after each cut), strips trailing
    [.,;:] and caps the result at 100 characters.  The output is an initial
    part of the stripped input; bold markers are not removed. *)
Theorem extract_item_name_spec (s : str) :
  extract_item_name s = NormalizerSpec.normalize s
  /\ is_prefix (extract_item_name s) (strip s)
  /\ List.length (extract_item_name s) <= 100.
Proof.
  split; [|split].
  - unfold NormalizerSpec.normalize. rewrite extract_item_name_unfold.
    rewrite trim_strip, !cut_at_truncate_at, trim_right_rstrip_by.
    change (rstrip_by is_punct
              (truncate_at $"  " (truncate_at $" (" (truncate_at $" - " (strip s)))))
      with (trimmed s).
    rewrite Nat.ltb_antisym.
    destruct (List.length (trimmed s) <=? 100); simpl; [reflexivity|].
    now rewrite trim_strip.
  - eapply is_prefix_trans; [apply extract_item_name_prefix | apply trimmed_prefix].
  - apply extract_item_name_length.
Qed.

(** C5 as stated fails: bold markers go through the normalizer untouched. *)
Lemma extract_item_name_keeps_bold :
  extract_item_name $"**Milk**" = $"**Milk**"
  /\ contains $"**" (extract_item_name $"**Milk**") = true.
Proof. split; vm_compute; reflexivity. Qed.

(** ** The change extractor *)

Lemma parse_lines_app l1 l2 st :
  parse_lines (l1 ++ l2) st = parse_lines l2 (parse_lines l1 st).
Proof. apply fold_left_app. Qed.

Lemma parse_line_reset sec ch r :
  header_of (strip r) = None -> is_reset_line (strip r) = true ->
  parse_line (sec, ch) r = (None, ch).
Proof. intros H1 H2. unfold parse_line. now rewrite H1, H2. Qed.

(** With no current section, only a section header is acted upon. *)
Lemma parse_line_outside ch l :
  header_of (strip l) = None -> parse_line (None, ch) l = (None, ch).
Proof.
  intros H. unfold parse_line. rewrite H.
  destruct (is_reset_line (strip l)); reflexivity.
Qed.

Lemma parse_lines_outside ch mid :
  Forall (fun l => header_of (strip l) = None) mid ->
  parse_lines mid (None, ch) = (None, ch).
Proof.
  induction 1 as [|l mid Hl _ IH]; [reflexivity|].
  change (parse_lines (l :: mid) (None, ch))
    with (parse_lines mid (parse_line (None, ch) l)).
  now rewrite (parse_line_outside ch l Hl).
Qed.

(** C4, as the code has it: a line that is not one of the three section
    headers and that, stripped, starts with [#], starts with [**Summary] or
    contains [Items Unchanged] sets the current section to none; the lines
    from it up to the next section header add nothing to the three lists:
    the text is parsed as if they were not there and the lines after them
    started outside of any section. *)
Theorem reset_line_suspends_extraction (text : str) (l1 : list str) (r : str)
    (mid l2 : list str) :
  split newline text = l1 ++ r :: mid ++ l2 ->
  header_of (strip r) = None ->
  is_reset_line (strip r) = true ->
  Forall (fun l => header_of (strip l) = None) mid ->
  parse_lines (l1 ++ r :: mid) (None, no_changes)
    = (None, snd (parse_lines l1 (None, no_changes)))
  /\ parse_changes text
    = snd (parse_lines l2 (None, snd (parse_lines l1 (None, no_changes)))).
Proof.
  intros Hsplit Hr1 Hr2 Hmid.
  assert (E : parse_lines (l1 ++ r :: mid) (None, no_changes)
              = (None, snd (parse_lines l1 (None, no_changes)))).
  { rewrite parse_lines_app.
    destruct (parse_lines l1 (None, no_changes)) as [sec ch].
    change (parse_lines (r :: mid) (sec, ch))
      with (parse_lines mid (parse_line (sec, ch) r)).
    rewrite (parse_line_reset sec ch r Hr1 Hr2).
    now apply parse_lines_outside. }
  split; [exact E|].
  unfold parse_changes. rewrite Hsplit.
  change (l1 ++ r :: mid ++ l2) with (l1 ++ (r :: mid) ++ l2).
  now rewrite app_assoc, parse_lines_app, E.
Qed.

Lemma reset_line_suspends_extraction_witness :
  let text :=
    $"ADDED ITEMS:" ++ newline ++ $"- Milk" ++ newline ++ $"**Summary**"
    ++ newline ++ $"- Eggs" ++ newline ++ $"REMOVED ITEMS:" ++ newline
    ++ $"- Bread" in
  parse_changes text = mkChanges [$"Milk"] [$"Bread"] [].
Proof.
  intros text.
  destruct (reset_line_suspends_extraction text
              [$"ADDED ITEMS:"; $"- Milk"] $"**Summary**" [$"- Eggs"]
              [$"REMOVED ITEMS:"; $"- Bread"]) as [_ H].
  - vm_compute. reflexivity.
  - vm_compute. reflexivity.
  - vm_compute. reflexivity.
  - repeat constructor.
  - rewrite H. vm_compute. reflexivity.
Defined.

(** C4 as stated fails: a line that contains "Summary" without starting
    with [**Summary] does not end the section, and a line that starts with
    [#] and names a section opens that section. *)
Lemma reset_line_counterexample :
  contains $"Summary" $"Summary of the scan" = true
  /\ parse_changes
       ($"ADDED ITEMS:" ++ newline ++ $"Summary of the scan" ++ newline
        ++ $"- Milk")
     = mkChanges [$"Milk"] [] []
  /\ startswith $"#" $"## ADDED ITEMS" = true
  /\ parse_changes ($"## ADDED ITEMS" ++ newline ++ $"- Milk")
     = mkChanges [$"Milk"] [] [].
Proof. repeat split; vm_compute; reflexivity. Qed.

Local Open Scope Z_scope.

(** ** The database operations *)

Arguments insert_scan : simpl never.
Arguments select_item : simpl never.
Arguments update_seen : simpl never.
Arguments insert_item : simpl never.
Arguments update_taken : simpl never.
Arguments select_like : simpl never.
Arguments insert_change : simpl never.
Arguments extract_item_name : simpl never.
Arguments parse_changes : simpl never.

#[local] Set Warnings "-unused-intro-pattern".

Ltac run :=
  unfold try_except, bind, execute, commit, rollback, print, raise, ret,
    idle, view; simpl.

Ltac cases :=
  repeat (simpl;
    match goal with
    | |- context [if ?b then _ else _] => destruct b eqn:?
    | |- context [match ?x with _ => _ end] => destruct x as [?|[[? ?] ?]] eqn:?
    | |- context [match ?x with _ => _ end] => destruct x eqn:?
    end).

Ltac done := simpl; repeat split; intros; try congruence.

Lemma save_scan_atomic path text cost tin tout :
  atomic (save_scan path text cost tin tout) ErrorSavingScan.
Proof. intros db sq out fl now. unfold save_scan. run. cases; done. Qed.

Lemma add_item_atomic name cat : atomic (add_item name cat) ErrorAddingItem.
Proof. intros db sq out fl now. unfold add_item. run. cases; done. Qed.

Lemma remove_item_atomic name : atomic (remove_item name) ErrorRemovingItem.
Proof. intros db sq out fl now. unfold remove_item. run. cases; done. Qed.

Lemma log_change_atomic scan name kind det :
  atomic (log_change scan name kind det) ErrorLoggingChange.
Proof. intros db sq out fl now. unfold log_change. run. cases; done. Qed.

Lemma idle_eta w :
  session w = None ->
  w = idle (durable w) (seqs w) (console w) (faults w) (clock w).
Proof. destruct w; simpl; intros ->; reflexivity. Qed.

(** *** What the statements keep *)

Lemma select_item_keeps P name : keeps P (select_item name).
Proof. intros now sq db a sq' db' H. inversion H; subst. auto. Qed.

Lemma select_like_keeps P name : keeps P (select_like name).
Proof. intros now sq db a sq' db' H. inversion H; subst. auto. Qed.

Lemma update_items_inr cond set ok db ids db' :
  update_items cond set ok db = inr (ids, db') ->
  db' = mkDatabase (pantry_scans db)
          (map (fun r => if cond r then set r else r) (pantry_items db))
          (inventory_changes db)
  /\ ids = map item_id (filter cond (pantry_items db))
  /\ forallb ok (filter cond (pantry_items db)) = true.
Proof.
  unfold update_items.
  destruct (forallb ok (filter cond (pantry_items db))); [|discriminate].
  intros H. inversion H; subst. auto.
Qed.

Lemma update_taken_inr cond now sq db a sq' db' :
  update_taken cond now sq db = inr (a, sq', db') ->
  sq' = sq
  /\ db' = mkDatabase (pantry_scans db)
          (map (fun r => if cond r then taken_away now r else r) (pantry_items db))
          (inventory_changes db)
  /\ a = hd_error (map item_id (filter cond (pantry_items db)))
  /\ forallb (fun r => in_int4 (current_quantity r - 1))
       (filter cond (pantry_items db)) = true.
Proof.
  unfold update_taken.
  destruct (update_items cond (taken_away now) _ db) as [e|[ids d]] eqn:E;
    [discriminate|].
  intros H. inversion H; subst. apply update_items_inr in E.
  destruct E as (-> & -> & ?). auto.
Qed.

Lemma update_seen_inr id now sq db a sq' db' :
  update_seen id now sq db = inr (a, sq', db') ->
  sq' = sq
  /\ db' = mkDatabase (pantry_scans db)
          (map (fun r => if has_id id r then seen_again now r else r)
             (pantry_items db))
          (inventory_changes db).
Proof.
  unfold update_seen.
  destruct (update_items (has_id id) (seen_again now) _ db) as [e|[ids d]] eqn:E;
    [discriminate|].
  intros H. inversion H; subst. apply update_items_inr in E.
  destruct E as (-> & _). auto.
Qed.

Lemma insert_item_inr name cat now sq db a sq' db' :
  insert_item name cat now sq db = inr (a, sq', db') ->
  a = next_item_id sq
  /\ db' = mkDatabase (pantry_scans db)
          (pantry_items db ++ [mkItem (next_item_id sq) name cat now now 1 true])
          (inventory_changes db).
Proof.
  unfold insert_item. destruct (negb _); [discriminate|].
  intros H. inversion H; subst. auto.
Qed.

Lemma insert_change_inr scan name kind det now sq db a sq' db' :
  insert_change scan name kind det now sq db = inr (a, sq', db') ->
  db' = mkDatabase (pantry_scans db) (pantry_items db)
          (inventory_changes db
           ++ [mkChange (next_change_id sq) scan name kind det now]).
Proof.
  unfold insert_change.
  destruct (negb (in_int4 scan)); [discriminate|].
  destruct (negb (fits 200 name && fits 20 kind)); [discriminate|].
  destruct (negb (existsb _ _)); [discriminate|].
  intros H. inversion H; subst. auto.
Qed.

Lemma insert_scan_inr path text cost tin tout now sq db a sq' db' :
  insert_scan path text cost tin tout now sq db = inr (a, sq', db') ->
  a = next_scan_id sq
  /\ db' = mkDatabase
          (pantry_scans db ++ [mkScan (next_scan_id sq) now path text cost tin tout])
          (pantry_items db) (inventory_changes db).
Proof.
  unfold insert_scan.
  destruct (negb (fits_opt 500 path)); [discriminate|].
  destruct (negb _); [discriminate|].
  intros H. inversion H; subst. auto.
Qed.

(** *** What the operations preserve *)

Lemma add_item_preserves P name cat :
  (forall id, keeps P (update_seen id)) -> keeps P (insert_item name cat) ->
  preserves P (add_item name cat).
Proof.
  intros K1 K2 db sq out fl now HP.
  pose proof (select_item_keeps P name) as K0.
  unfold keeps in *. unfold add_item. run. cases; simpl; eauto.
Qed.

Lemma remove_item_preserves P name :
  (forall cond, keeps P (update_taken cond)) -> preserves P (remove_item name).
Proof.
  intros K1 db sq out fl now HP.
  pose proof (select_like_keeps P name) as K0.
  unfold keeps in *. unfold remove_item. run. cases; simpl; eauto 8.
Qed.

Lemma log_change_preserves P scan name kind det :
  keeps P (insert_change scan name kind det) ->
  preserves P (log_change scan name kind det).
Proof.
  intros K db sq out fl now HP.
  unfold keeps in *. unfold log_change. run. cases; simpl; eauto.
Qed.

Lemma update_taken_keeps_scans S cond : keeps (scans_are S) (update_taken cond).
Proof.
  intros now sq db a sq' db' H. apply update_taken_inr in H.
  destruct H as (_ & -> & _). auto.
Qed.

Lemma update_seen_keeps_scans S id : keeps (scans_are S) (update_seen id).
Proof.
  intros now sq db a sq' db' H. apply update_seen_inr in H.
  destruct H as (_ & ->). auto.
Qed.

Lemma insert_item_keeps_scans S name cat : keeps (scans_are S) (insert_item name cat).
Proof.
  intros now sq db a sq' db' H. apply insert_item_inr in H.
  destruct H as (_ & ->). auto.
Qed.

Lemma insert_change_keeps_scans S scan name kind det :
  keeps (scans_are S) (insert_change scan name kind det).
Proof. intros now sq db a sq' db' H. apply insert_change_inr in H. subst. auto. Qed.

Lemma insert_change_keeps_items L scan name kind det :
  keeps (items_are L) (insert_change scan name kind det).
Proof. intros now sq db a sq' db' H. apply insert_change_inr in H. subst. auto. Qed.

Lemma steady_intro {A} P (m : M A) err :
  atomic m err -> preserves P m -> steady P m.
Proof.
  intros Ha Hp w Hs HP. rewrite (idle_eta w Hs). split.
  - apply Ha.
  - apply Hp, HP.
Qed.

Lemma steady_bind {A B} P (m : M A) (k : A -> M B) :
  steady P m -> (forall a, steady P (k a)) -> steady P (bind m k).
Proof.
  intros Hm Hk w Hs HP. unfold bind.
  destruct (Hm w Hs HP) as [Hs' HP']. destruct (m w) as [[a|e] w']; simpl in *.
  - apply Hk; assumption.
  - auto.
Qed.

Lemma steady_ret {A} P (a : A) : steady P (ret a).
Proof. intros w Hs HP. auto. Qed.

Lemma steady_print P l : steady P (print l).
Proof. intros w Hs HP. auto. Qed.

Lemma steady_for_each {A} P (body : A -> M unit) xs :
  (forall x, steady P (body x)) -> steady P (for_each xs body).
Proof.
  intros Hb. induction xs as [|x xs IH]; simpl.
  - apply steady_ret.
  - apply steady_bind; [apply Hb | intros _; exact IH].
Qed.

Lemma add_item_steady_scans S name cat : steady (scans_are S) (add_item name cat).
Proof.
  eapply steady_intro; [apply add_item_atomic|].
  apply add_item_preserves;
    [intros; apply update_seen_keeps_scans | apply insert_item_keeps_scans].
Qed.

Lemma remove_item_steady_scans S name : steady (scans_are S) (remove_item name).
Proof.
  eapply steady_intro; [apply remove_item_atomic|].
  apply remove_item_preserves. intros; apply update_taken_keeps_scans.
Qed.

Lemma log_change_steady_scans S scan name kind det :
  steady (scans_are S) (log_change scan name kind det).
Proof.
  eapply steady_intro; [apply log_change_atomic|].
  apply log_change_preserves, insert_change_keeps_scans.
Qed.

Lemma save_to_database_unfold path text cost tin tout :
  save_to_database true path text cost tin tout
  = try_except
      (scan_id <- save_scan path text cost tin tout ;;
       save_events scan_id (parse_changes text))
      (fun e => print (ErrorSavingToDatabase e)).
Proof. reflexivity. Qed.

Lemma save_events_steady_scans S scan_id changes :
  steady (scans_are S) (save_events scan_id changes).
Proof.
  unfold save_events.
  apply steady_bind; [|intros _; apply steady_bind; [|intros _; apply steady_bind]].
  - apply steady_for_each. intros x. unfold save_added.
    apply steady_bind; [apply add_item_steady_scans|].
    intros _. apply log_change_steady_scans.
  - apply steady_for_each. intros x. unfold save_removed.
    apply steady_bind; [apply remove_item_steady_scans|].
    intros _. apply log_change_steady_scans.
  - apply steady_for_each. intros x. apply log_change_steady_scans.
  - intros _. apply steady_print.
Qed.

(** [save_to_database] hands no exception on. *)
Lemma save_to_database_returns has_db path text cost tin tout w :
  fst (save_to_database has_db path text cost tin tout w) = Ok tt.
Proof.
  destruct has_db; [|reflexivity].
  rewrite save_to_database_unfold. unfold try_except.
  destruct ((scan_id <- save_scan path text cost tin tout ;;
             save_events scan_id (parse_changes text)) w) as [[[]|e] w'];
    reflexivity.
Qed.

Lemma bind_ok {A B} (m : M A) (k : A -> M B) w a w1 :
  m w = (Ok a, w1) -> bind m k w = k a w1.
Proof. intros E. unfold bind. now rewrite E. Qed.

Lemma save_scan_ok path text cost tin tout db sq out fl now :
  hd false fl = false ->
  fits_opt 500 path = true ->
  (Z.abs cost <? 10000000000) && in_int4 tin && in_int4 tout = true ->
  save_scan path text cost tin tout (idle db sq out fl now)
  = (Ok (next_scan_id sq),
     idle (mkDatabase
             (pantry_scans db
              ++ [mkScan (next_scan_id sq) now path text cost tin tout])
             (pantry_items db) (inventory_changes db))
       (mkSeqs (next_scan_id sq + 1) (next_item_id sq) (next_change_id sq))
       (out ++ [SavedScanRecord (next_scan_id sq)]) (tl fl) now).
Proof.
  intros Hf Hp Hn. unfold save_scan. run. rewrite Hf. unfold insert_scan.
  rewrite Hp, Hn. reflexivity.
Qed.

(** Once the scan row is committed it stays, whatever fails later. *)
Lemma save_to_database_keeps_scan path text cost tin tout db sq out fl now :
  hd false fl = false ->
  fits_opt 500 path = true ->
  (Z.abs cost <? 10000000000) && in_int4 tin && in_int4 tout = true ->
  let w' := snd (save_to_database true path text cost tin tout
                   (idle db sq out fl now)) in
  session w' = None
  /\ pantry_scans (durable w')
     = pantry_scans db ++ [mkScan (next_scan_id sq) now path text cost tin tout].
Proof.
  intros Hf Hp Hn. rewrite save_to_database_unfold. unfold try_except.
  rewrite (bind_ok _ _ _ _ _
             (save_scan_ok path text cost tin tout db sq out fl now Hf Hp Hn)).
  match goal with
  | |- context [save_events ?i ?c ?w] =>
      pose proof (save_events_steady_scans
                    (pantry_scans db
                     ++ [mkScan (next_scan_id sq) now path text cost tin tout])
                    i c w eq_refl eq_refl) as H;
      destruct (save_events i c w) as [[[]|e] w']
  end; simpl in *; exact H.
Qed.

Lemma bind_ok_inv {A B} (m : M A) (k : A -> M B) w b w1 :
  bind m k w = (Ok b, w1) ->
  exists a w0, m w = (Ok a, w0) /\ k a w0 = (Ok b, w1).
Proof.
  unfold bind. destruct (m w) as [[a|e] w0]; [|discriminate].
  intros H. exists a, w0. auto.
Qed.

(** The last line [save_to_database] prints is its summary or its error. *)
Lemma save_to_database_last_line path text cost tin tout w :
  let res := save_to_database true path text cost tin tout w in
  (exists l na nr nc, console (snd res) = l ++ [SavedToDatabase na nr nc])
  \/ (exists l e, console (snd res) = l ++ [ErrorSavingToDatabase e]).
Proof.
  rewrite save_to_database_unfold. unfold try_except.
  destruct ((scan_id <- save_scan path text cost tin tout ;;
             save_events scan_id (parse_changes text)) w) as [[[]|e] w1] eqn:E.
  - left. apply bind_ok_inv in E. destruct E as (id & w0 & _ & E).
    unfold save_events in E.
    apply bind_ok_inv in E. destruct E as (? & wa & _ & E).
    apply bind_ok_inv in E. destruct E as (? & wb & _ & E).
    apply bind_ok_inv in E. destruct E as (? & wc & _ & E).
    unfold print in E. inversion E; subst. simpl. eauto.
  - right. simpl. eauto.
Qed.

Lemma for_each_app {A} (xs ys : list A) body w :
  for_each (xs ++ ys) body w = (for_each xs body ;; for_each ys body) w.
Proof.
  revert w. induction xs as [|x xs IH]; intros w; simpl.
  - reflexivity.
  - unfold bind. destruct (body x w) as [[[]|e] w1]; [|reflexivity].
    rewrite IH. reflexivity.
Qed.

Lemma for_each_flat_map {A B} (f : A -> list B) (body : A -> M unit)
    (step : B -> M unit) xs :
  (forall x w, body x w = for_each (f x) step w) ->
  forall w, for_each xs body w = for_each (flat_map f xs) step w.
Proof.
  intros H. induction xs as [|x xs IH]; intros w; simpl; [reflexivity|].
  rewrite for_each_app. unfold bind. rewrite H.
  destruct (for_each (f x) step w) as [[[]|e] w1]; [apply IH | reflexivity].
Qed.

Lemma save_added_calls scan_id item w :
  save_added scan_id item w = for_each (calls_added scan_id item) call w.
Proof.
  unfold save_added, calls_added. cbn [for_each call]. unfold bind, ret.
  destruct (add_item (extract_item_name item) None w) as [[x|e] w1]; [|reflexivity].
  destruct (log_change _ _ _ _ w1) as [[[]|e] w2]; reflexivity.
Qed.

Lemma save_removed_calls scan_id item w :
  save_removed scan_id item w = for_each (calls_removed scan_id item) call w.
Proof.
  unfold save_removed, calls_removed. cbn [for_each call]. unfold bind, ret.
  destruct (remove_item (extract_item_name item) w) as [[[]|e] w1]; [|reflexivity].
  destruct (log_change _ _ _ _ w1) as [[[]|e] w2]; reflexivity.
Qed.

Lemma save_changed_calls scan_id item w :
  save_changed scan_id item w = for_each (calls_changed scan_id item) call w.
Proof.
  unfold save_changed, calls_changed. cbn [for_each call]. unfold bind, ret.
  destruct (log_change _ _ _ _ w) as [[[]|e] w2]; reflexivity.
Qed.

(** The three loops make the calls of [calls_of], one after the other. *)
Lemma save_events_calls scan_id changes w :
  save_events scan_id changes w
  = (for_each (calls_of scan_id changes) call ;;
     print (SavedToDatabase (List.length (added changes))
              (List.length (removed changes))
              (List.length (changed changes)))) w.
Proof.
  unfold save_events, calls_of. unfold bind.
  rewrite (for_each_flat_map _ _ call (added changes) (save_added_calls scan_id)).
  rewrite for_each_app. unfold bind.
  destruct (for_each (flat_map (calls_added scan_id) (added changes)) call w)
    as [[[]|e] w1]; [|reflexivity].
  rewrite (for_each_flat_map _ _ call (removed changes) (save_removed_calls scan_id)).
  rewrite for_each_app. unfold bind.
  destruct (for_each (flat_map (calls_removed scan_id) (removed changes)) call w1)
    as [[[]|e] w2]; [|reflexivity].
  rewrite (for_each_flat_map _ _ call (changed changes) (save_changed_calls scan_id)).
  reflexivity.
Qed.

Lemma call_atomic c : atomic (call c) (call_error c).
Proof.
  destruct c as [name | name | scan name kind det]; simpl.
  - intros db sq out fl now.
    pose proof (add_item_atomic name None db sq out fl now) as H.
    unfold bind, ret.
    destruct (add_item name None (idle db sq out fl now)) as [[x|e] w1];
      simpl in *; destruct H as (H1 & H2 & H3);
      (split; [exact H1 | split; [exact H2|]]); intros e' He'.
    + discriminate.
    + inversion He'; subst e'. now apply H3.
  - apply remove_item_atomic.
  - apply log_change_atomic.
Qed.

(** A call leaves no transaction open. *)
Lemma call_idle c w : session w = None -> session (snd (call c w)) = None.
Proof.
  intros Hs. rewrite (idle_eta w Hs). apply (call_atomic c).
Qed.

Lemma for_each_call_idle cs w w1 :
  session w = None -> for_each cs call w = (Ok tt, w1) -> session w1 = None.
Proof.
  revert w. induction cs as [|c cs IH]; intros w Hs; simpl.
  - unfold ret. intros H. inversion H; subst. exact Hs.
  - unfold bind. pose proof (call_idle c w Hs) as Hc.
    destruct (call c w) as [[[]|e] w0]; [|discriminate].
    apply IH. exact Hc.
Qed.

(** The loop stops at the first call that raises. *)
Lemma for_each_raise {A} (xs ys : list A) x body w w1 e :
  for_each xs body w = (Ok tt, w1) ->
  fst (body x w1) = Raised e ->
  for_each (xs ++ x :: ys) body w = (Raised e, snd (body x w1)).
Proof.
  intros H1 H2. rewrite for_each_app. unfold bind. rewrite H1. simpl.
  unfold bind. destruct (body x w1) as [[[]|e'] w2]; simpl in *; congruence.
Qed.

Lemma save_scan_idle path text cost tin tout db sq out fl now id w0 :
  save_scan path text cost tin tout (idle db sq out fl now) = (Ok id, w0) ->
  session w0 = None.
Proof.
  intros H.
  pose proof (save_scan_atomic path text cost tin tout db sq out fl now) as Ha.
  simpl in Ha. rewrite H in Ha. apply Ha.
Qed.

(** When [save_scan] raises nothing has been stored. *)
Lemma save_to_database_no_scan path text cost tin tout db sq out fl now e :
  fst (save_scan path text cost tin tout (idle db sq out fl now)) = Raised e ->
  let res := save_to_database true path text cost tin tout
               (idle db sq out fl now) in
  fst res = Ok tt
  /\ session (snd res) = None
  /\ durable (snd res) = db
  /\ console (snd res) = out ++ [ErrorSavingScan e; ErrorSavingToDatabase e].
Proof.
  intros H. rewrite save_to_database_unfold. unfold try_except, bind.
  pose proof (save_scan_atomic path text cost tin tout db sq out fl now) as Ha.
  simpl in Ha.
  destruct (save_scan path text cost tin tout (idle db sq out fl now))
    as [[id|e'] w0]; simpl in *; [discriminate|].
  inversion H; subst e'. destruct Ha as (Hs & _ & Hr).
  destruct (Hr e eq_refl) as [Hd Hc].
  repeat split; try assumption.
  rewrite Hc, <- app_assoc. reflexivity.
Qed.

(** When a call raises, the calls after it are not made. *)
Lemma save_to_database_stops path text cost tin tout db sq out fl now
    id w0 before c after w1 e :
  save_scan path text cost tin tout (idle db sq out fl now) = (Ok id, w0) ->
  calls_of id (parse_changes text) = before ++ c :: after ->
  for_each before call w0 = (Ok tt, w1) ->
  fst (call c w1) = Raised e ->
  let res := save_to_database true path text cost tin tout
               (idle db sq out fl now) in
  fst res = Ok tt
  /\ session (snd res) = None
  /\ durable (snd res) = durable w1
  /\ console (snd res) = console w1 ++ [call_error c e; ErrorSavingToDatabase e].
Proof.
  intros Hscan Hcalls Hbefore Hc res.
  assert (E : res = print (ErrorSavingToDatabase e) (snd (call c w1))).
  { subst res. rewrite save_to_database_unfold. unfold try_except.
    rewrite (bind_ok _ _ _ _ _ Hscan), save_events_calls. unfold bind at 1.
    rewrite Hcalls, (for_each_raise before after c call w0 w1 e Hbefore Hc).
    reflexivity. }
  assert (Hs : session w1 = None).
  { apply (for_each_call_idle before w0 w1); [|exact Hbefore].
    apply (save_scan_idle _ _ _ _ _ _ _ _ _ _ _ _ Hscan). }
  pose proof (call_atomic c (durable w1) (seqs w1) (console w1) (faults w1)
                (clock w1)) as Ha.
  cbv zeta in Ha. rewrite <- (idle_eta w1 Hs) in Ha.
  destruct Ha as (Hs' & _ & Hr). destruct (Hr e Hc) as [Hd Hcon].
  rewrite E. unfold print. cbn [fst snd durable session console].
  repeat split; try assumption.
  rewrite Hcon, <- app_assoc. reflexivity.
Qed.

(** When no call raises, all of them are made. *)
Lemma save_to_database_completes path text cost tin tout db sq out fl now
    id w0 w1 :
  save_scan path text cost tin tout (idle db sq out fl now) = (Ok id, w0) ->
  for_each (calls_of id (parse_changes text)) call w0 = (Ok tt, w1) ->
  let changes := parse_changes text in
  let res := save_to_database true path text cost tin tout
               (idle db sq out fl now) in
  fst res = Ok tt
  /\ session (snd res) = None
  /\ durable (snd res) = durable w1
  /\ console (snd res)
     = console w1 ++ [SavedToDatabase (List.length (added changes))
                        (List.length (removed changes))
                        (List.length (changed changes))].
Proof.
  intros Hscan Hcalls changes res.
  assert (E : res = print (SavedToDatabase (List.length (added changes))
                             (List.length (removed changes))
                             (List.length (changed changes))) w1).
  { subst res changes. rewrite save_to_database_unfold. unfold try_except.
    rewrite (bind_ok _ _ _ _ _ Hscan), save_events_calls. unfold bind at 1.
    rewrite Hcalls. reflexivity. }
  rewrite E. unfold print. cbn [fst snd durable session console].
  repeat split.
  eapply (for_each_call_idle _ w0 w1); [|exact Hcalls].
  apply (save_scan_idle _ _ _ _ _ _ _ _ _ _ _ _ Hscan).
Qed.

(** C1, as the code has it: each database operation of a scan (the scan
    row, an item insert or update, a change record) is a transaction of its
    own: it leaves none open, and when it raises it has rolled back its own
    statements only, printed its error and handed the exception to
    [save_to_database]; [save_to_database] returns normally whatever
    fails, its last printed line being its summary or the error it caught;
    the scan row, once committed by [save_scan], stays in the database
    whatever fails afterwards.  When [save_scan] raises, nothing is stored.
    When a later call raises, the calls after it are not made: the
    database is left as the calls before it have committed it, and the
    error lines of the call and of [save_to_database] are printed.  When no
    call raises, all calls are made and the summary is printed. *)
Theorem each_operation_is_its_own_transaction :
  (forall path text cost tin tout,
      atomic (save_scan path text cost tin tout) ErrorSavingScan)
  /\ (forall name cat, atomic (add_item name cat) ErrorAddingItem)
  /\ (forall name, atomic (remove_item name) ErrorRemovingItem)
  /\ (forall scan name kind det,
        atomic (log_change scan name kind det) ErrorLoggingChange)
  /\ (forall has_db path text cost tin tout w,
        fst (save_to_database has_db path text cost tin tout w) = Ok tt)
  /\ (forall path text cost tin tout w,
        let res := save_to_database true path text cost tin tout w in
        (exists l na nr nc, console (snd res) = l ++ [SavedToDatabase na nr nc])
        \/ (exists l e, console (snd res) = l ++ [ErrorSavingToDatabase e]))
  /\ (forall path text cost tin tout db sq out fl now,
        hd false fl = false ->
        fits_opt 500 path = true ->
        (Z.abs cost <? 10000000000) && in_int4 tin && in_int4 tout = true ->
        let w' := snd (save_to_database true path text cost tin tout
                         (idle db sq out fl now)) in
        session w' = None
        /\ pantry_scans (durable w')
           = pantry_scans db
             ++ [mkScan (next_scan_id sq) now path text cost tin tout])
  /\ (forall path text cost tin tout db sq out fl now e,
        fst (save_scan path text cost tin tout (idle db sq out fl now))
        = Raised e ->
        let res := save_to_database true path text cost tin tout
                     (idle db sq out fl now) in
        fst res = Ok tt
        /\ session (snd res) = None
        /\ durable (snd res) = db
        /\ console (snd res)
           = out ++ [ErrorSavingScan e; ErrorSavingToDatabase e])
  /\ (forall path text cost tin tout db sq out fl now
             id w0 before c after w1 e,
        save_scan path text cost tin tout (idle db sq out fl now)
        = (Ok id, w0) ->
        calls_of id (parse_changes text) = before ++ c :: after ->
        for_each before call w0 = (Ok tt, w1) ->
        fst (call c w1) = Raised e ->
        let res := save_to_database true path text cost tin tout
                     (idle db sq out fl now) in
        fst res = Ok tt
        /\ session (snd res) = None
        /\ durable (snd res) = durable w1
        /\ console (snd res)
           = console w1 ++ [call_error c e; ErrorSavingToDatabase e])
  /\ (forall path text cost tin tout db sq out fl now id w0 w1,
        save_scan path text cost tin tout (idle db sq out fl now)
        = (Ok id, w0) ->
        for_each (calls_of id (parse_changes text)) call w0 = (Ok tt, w1) ->
        let changes := parse_changes text in
        let res := save_to_database true path text cost tin tout
                     (idle db sq out fl now) in
        fst res = Ok tt
        /\ session (snd res) = None
        /\ durable (snd res) = durable w1
        /\ console (snd res)
           = console w1 ++ [SavedToDatabase (List.length (added changes))
                              (List.length (removed changes))
                              (List.length (changed changes))]).
Proof.
  split; [exact save_scan_atomic|].
  split; [exact add_item_atomic|].
  split; [exact remove_item_atomic|].
  split; [exact log_change_atomic|].
  split; [exact save_to_database_returns|].
  split; [exact save_to_database_last_line|].
  split; [exact save_to_database_keeps_scan|].
  split; [exact save_to_database_no_scan|].
  split; [exact save_to_database_stops | exact save_to_database_completes].
Qed.

Lemma each_operation_is_its_own_transaction_witness :
  let res := save_to_database true None two_items 5 10 20 lost_at_fifth in
  let res3 := save_to_database true None two_items 5 10 20
                (idle empty_db (mkSeqs 1 1 1) [] [false; false; true] 7) in
  durable (snd res)
  = mkDatabase [mkScan 1 7 None two_items 5 10 20]
      [mkItem 1 $"Milk" None 7 7 1 true]
      [mkChange 1 1 $"Milk" $"added" (Some $"Milk") 7]
  /\ console (snd res)
     = [SavedScanRecord 1; ErrorAddingItem OperationalError;
        ErrorSavingToDatabase OperationalError]
  /\ durable (snd res3) = mkDatabase [mkScan 1 7 None two_items 5 10 20] [] [].
Proof.
  intros res res3.
  destruct each_operation_is_its_own_transaction
    as (_ & _ & _ & _ & _ & _ & _ & _ & H & _).
  pose (w0 := snd (save_scan None two_items 5 10 20 lost_at_fifth)).
  pose (milk := [CallAddItem $"Milk"; CallLogChange 1 $"Milk" $"added" (Some $"Milk")]).
  pose (eggs := [CallLogChange 1 $"Eggs" $"added" (Some $"Eggs")]).
  destruct (H None two_items 5 10 20 empty_db (mkSeqs 1 1 1) []
              [false; false; false; false; true] 7 1 w0 milk
              (CallAddItem $"Eggs") eggs (snd (for_each milk call w0))
              OperationalError)
    as (_ & _ & Hd & Hc); try (vm_compute; reflexivity).
  pose (w0' := snd (save_scan None two_items 5 10 20
                      (idle empty_db (mkSeqs 1 1 1) [] [false; false; true] 7))).
  destruct (H None two_items 5 10 20 empty_db (mkSeqs 1 1 1) []
              [false; false; true] 7 1 w0' [] (CallAddItem $"Milk")
              (CallLogChange 1 $"Milk" $"added" (Some $"Milk")
               :: CallAddItem $"Eggs" :: eggs) w0' OperationalError)
    as (_ & _ & Hd3 & _); try (vm_compute; reflexivity).
  split; [refine (eq_trans Hd _); vm_compute; reflexivity|].
  split; [refine (eq_trans Hc _); vm_compute; reflexivity|].
  refine (eq_trans Hd3 _). vm_compute. reflexivity.
Defined.

(** C1 as stated fails: the failure of the second [add_item] undoes
    neither the scan row nor the first item and its change record, and the
    caller of [save_to_database] sees no exception. *)
Lemma scan_is_not_one_transaction :
  let res := save_to_database true None two_items 5 10 20 lost_at_fifth in
  fst res = Ok tt
  /\ durable (snd res)
     = mkDatabase [mkScan 1 7 None two_items 5 10 20]
         [mkItem 1 $"Milk" None 7 7 1 true]
         [mkChange 1 1 $"Milk" $"added" (Some $"Milk") 7]
  /\ durable (snd res) <> durable lost_at_fifth
  /\ console (snd res)
     = [SavedScanRecord 1; ErrorAddingItem OperationalError;
        ErrorSavingToDatabase OperationalError].
Proof.
  vm_compute. repeat split; discriminate.
Qed.

(** *** Change records *)

Lemma fits_extract_item_name item : fits 200 (extract_item_name item) = true.
Proof.
  unfold fits. apply Nat.leb_le.
  pose proof (extract_item_name_length item). lia.
Qed.

Lemma log_change_ok scan name kind det db sq out fl now :
  hd false fl = false ->
  in_int4 scan = true ->
  fits 200 name = true -> fits 20 kind = true ->
  existsb (fun s => scan_id s =? scan) (pantry_scans db) = true ->
  log_change scan name kind det (idle db sq out fl now)
  = (Ok tt,
     idle (mkDatabase (pantry_scans db) (pantry_items db)
             (inventory_changes db
              ++ [mkChange (next_change_id sq) scan name kind det now]))
       (mkSeqs (next_scan_id sq) (next_item_id sq) (next_change_id sq + 1))
       out (tl fl) now).
Proof.
  intros Hf H1 H2 H3 H4. unfold log_change. run. rewrite Hf.
  unfold insert_change. rewrite H1, H2, H3, H4. reflexivity.
Qed.

Lemma log_change_raises scan name kind det db sq out fl now :
  negb (hd false fl) && in_int4 scan
  && existsb (fun s => scan_id s =? scan) (pantry_scans db) = false ->
  exists e, fst (log_change scan name kind det (idle db sq out fl now)) = Raised e.
Proof.
  intros H. unfold log_change. run.
  destruct (hd false fl); simpl in *; [eexists; reflexivity|].
  unfold insert_change.
  destruct (in_int4 scan); simpl in *; [|eexists; reflexivity].
  destruct (negb (fits 200 name && fits 20 kind)); [eexists; reflexivity|].
  rewrite H. simpl. eexists; reflexivity.
Qed.

(** C8: a quantity-changed event changes no row of the items table (and no
    scan row); when the statement goes through, exactly one change record
    of kind [quantity_changed] is appended, and when it raises, none is. *)
Theorem quantity_changed_only_logs (scan : Z) (item : str) (db : Database)
    (sq : Seqs) (out : list Line) (fl : list bool) (now : timestamp) :
  let res := save_changed scan item (idle db sq out fl now) in
  pantry_items (durable (snd res)) = pantry_items db
  /\ pantry_scans (durable (snd res)) = pantry_scans db
  /\ if negb (hd false fl) && in_int4 scan
        && existsb (fun s => scan_id s =? scan) (pantry_scans db)
     then fst res = Ok tt
          /\ inventory_changes (durable (snd res))
             = inventory_changes db
               ++ [mkChange (next_change_id sq) scan (extract_item_name item)
                     $"quantity_changed" (Some item) now]
     else (exists e, fst res = Raised e)
          /\ inventory_changes (durable (snd res)) = inventory_changes db.
Proof.
  unfold save_changed. cbv zeta.
  split; [|split].
  - apply (log_change_preserves (items_are (pantry_items db)));
      [apply insert_change_keeps_items | reflexivity].
  - apply (log_change_preserves (scans_are (pantry_scans db)));
      [apply insert_change_keeps_scans | reflexivity].
  - destruct (negb (hd false fl) && in_int4 scan
              && existsb (fun s => scan_id s =? scan) (pantry_scans db)) eqn:E.
    + apply andb_true_iff in E. destruct E as [E E3].
      apply andb_true_iff in E. destruct E as [E1 E2].
      apply negb_true_iff in E1.
      rewrite (log_change_ok scan (extract_item_name item) $"quantity_changed"
                 (Some item) db sq out fl now E1 E2
                 (fits_extract_item_name item) eq_refl E3).
      split; reflexivity.
    + destruct (log_change_raises scan (extract_item_name item)
                  $"quantity_changed" (Some item) db sq out fl now E) as [e He].
      split; [exists e; exact He|].
      destruct (log_change_atomic scan (extract_item_name item)
                  $"quantity_changed" (Some item) db sq out fl now) as (_ & _ & H).
      destruct (H e He) as [-> _]. reflexivity.
Qed.

(** *** Removal *)

Lemma decrementable_taken_away now r :
  decrementable r -> decrementable (taken_away now r).
Proof. unfold decrementable, int4_min, int4_max. simpl. lia. Qed.

Lemma update_taken_ok_on cond now sq db :
  (forall r, In r (pantry_items db) -> cond r = true -> decrementable r) ->
  update_taken cond now sq db
  = inr (hd_error (map item_id (filter cond (pantry_items db))), sq,
         mkDatabase (pantry_scans db)
           (map (fun r => if cond r then taken_away now r else r)
              (pantry_items db))
           (inventory_changes db)).
Proof.
  intros H. unfold update_taken, update_items.
  assert (E : forallb (fun r => in_int4 (current_quantity r - 1))
                (filter cond (pantry_items db)) = true).
  { apply forallb_forall. intros r Hr. apply filter_In in Hr.
    destruct Hr as [Hr Hc]. specialize (H r Hr Hc).
    unfold decrementable, int4_min, int4_max in H.
    unfold in_int4, int4_min, int4_max.
    apply andb_true_iff. split; apply Z.leb_le; lia. }
  now rewrite E.
Qed.

Lemma update_taken_ok cond now sq db :
  Forall decrementable (pantry_items db) ->
  update_taken cond now sq db
  = inr (hd_error (map item_id (filter cond (pantry_items db))), sq,
         mkDatabase (pantry_scans db)
           (map (fun r => if cond r then taken_away now r else r)
              (pantry_items db))
           (inventory_changes db)).
Proof.
  intros H. apply update_taken_ok_on. intros r Hr _.
  rewrite Forall_forall in H. now apply H.
Qed.

Lemma map_unchanged {A} (cond : A -> bool) (f : A -> A) l :
  (forall x, In x l -> cond x = false) ->
  map (fun x => if cond x then f x else x) l = l.
Proof.
  intros H. induction l as [|x l IH]; [reflexivity|].
  simpl. rewrite (H x (or_introl eq_refl)). f_equal.
  apply IH. intros y Hy. apply H. now right.
Qed.

Lemma filter_none {A} (cond : A -> bool) l :
  (forall x, In x l -> cond x = false) -> filter cond l = [].
Proof.
  intros H. induction l as [|x l IH]; [reflexivity|].
  simpl. rewrite (H x (or_introl eq_refl)).
  apply IH. intros y Hy. apply H. now right.
Qed.

Lemma find_none {A} (cond : A -> bool) l :
  (forall x, In x l -> cond x = false) -> find cond l = None.
Proof.
  intros H. induction l as [|x l IH]; [reflexivity|].
  simpl. rewrite (H x (or_introl eq_refl)).
  apply IH. intros y Hy. apply H. now right.
Qed.

Lemma database_eta db :
  mkDatabase (pantry_scans db) (pantry_items db) (inventory_changes db) = db.
Proof. destruct db; reflexivity. Qed.

(** A removal that finds nothing changes no row and prints its warning. *)
Lemma remove_item_no_match name db sq out now :
  (forall r, In r (pantry_items db) ->
     name_eq name r = false /\ name_like name r = false) ->
  remove_item name (idle db sq out [] now)
  = (Ok tt, idle db sq (out ++ [ItemNotFoundForRemoval name]) [] now).
Proof.
  intros H.
  assert (H1 : forall r, In r (pantry_items db) -> name_eq name r = false)
    by (intros r Hr; apply H, Hr).
  assert (H2 : forall r, In r (pantry_items db) -> name_like name r = false)
    by (intros r Hr; apply H, Hr).
  unfold remove_item. run.
  unfold update_taken, update_items.
  rewrite (filter_none _ _ H1), (map_unchanged _ _ _ H1). simpl.
  rewrite (find_none _ _ H2). simpl.
  rewrite database_eta. reflexivity.
Qed.

(** Without faults and with quantities in range a removal goes through; it
    touches the items table and the console only. *)
Lemma remove_item_runs name db sq out now :
  Forall decrementable (pantry_items db) ->
  exists items' lines,
    remove_item name (idle db sq out [] now)
    = (Ok tt,
       idle (mkDatabase (pantry_scans db) items' (inventory_changes db)) sq
         (out ++ lines) [] now).
Proof.
  intros H. unfold remove_item. run.
  rewrite (update_taken_ok (name_eq name) now sq db H).
  destruct (hd_error (map item_id (filter (name_eq name) (pantry_items db)))) as [id|].
  - simpl. eexists _, []. rewrite app_nil_r. reflexivity.
  - simpl.
    match goal with
    | |- context [find ?c ?l] => destruct (find c l) as [m|] eqn:Em
    end; simpl.
    + match goal with
      | |- context [update_taken ?c ?n ?s ?d] =>
          rewrite (update_taken_ok c n s d)
      end.
      * simpl.
        match goal with
        | |- context [hd_error ?l] => destruct (hd_error l)
        end; simpl.
        -- eexists _, [_]. reflexivity.
        -- eexists _, [_]. reflexivity.
      * simpl. apply Forall_map. eapply Forall_impl; [|exact H].
        intros r Hr. destruct (name_eq name r); [apply decrementable_taken_away|]; exact Hr.
    + eexists _, [_]. reflexivity.
Qed.

(** C2, as the code has it: every remove event whose statements go through
    appends a [removed] change record, whether or not an item matched; when
    neither the exact lookup nor the substring fallback finds an item, the
    items table is left as it was and the warning is printed. *)
Theorem removal_is_logged_with_or_without_match (scan : Z) (item : str)
    (db : Database) (sq : Seqs) (out : list Line) (now : timestamp) :
  in_int4 scan = true ->
  existsb (fun s => scan_id s =? scan) (pantry_scans db) = true ->
  Forall decrementable (pantry_items db) ->
  let clean_name := extract_item_name item in
  let res := save_removed scan item (idle db sq out [] now) in
  fst res = Ok tt
  /\ inventory_changes (durable (snd res))
     = inventory_changes db
       ++ [mkChange (next_change_id sq) scan clean_name $"removed" (Some item) now]
  /\ ((forall r, In r (pantry_items db) ->
         name_eq clean_name r = false /\ name_like clean_name r = false) ->
      pantry_items (durable (snd res)) = pantry_items db
      /\ console (snd res) = out ++ [ItemNotFoundForRemoval clean_name]).
Proof.
  intros H1 H2 H3 clean_name res. subst res. unfold save_removed. cbv zeta.
  fold clean_name.
  split; [|split].
  - destruct (remove_item_runs clean_name db sq out now H3) as (items' & lines & E).
    rewrite (bind_ok _ _ _ _ _ E).
    rewrite (log_change_ok scan clean_name $"removed" (Some item)
               (mkDatabase (pantry_scans db) items' (inventory_changes db))
               sq _ [] now eq_refl H1 (fits_extract_item_name item) eq_refl H2).
    reflexivity.
  - destruct (remove_item_runs clean_name db sq out now H3) as (items' & lines & E).
    rewrite (bind_ok _ _ _ _ _ E).
    rewrite (log_change_ok scan clean_name $"removed" (Some item)
               (mkDatabase (pantry_scans db) items' (inventory_changes db))
               sq _ [] now eq_refl H1 (fits_extract_item_name item) eq_refl H2).
    reflexivity.
  - intros Hno.
    rewrite (bind_ok _ _ _ _ _ (remove_item_no_match clean_name db sq out now Hno)).
    rewrite (log_change_ok scan clean_name $"removed" (Some item) db sq _ [] now
               eq_refl H1 (fits_extract_item_name item) eq_refl H2).
    split; reflexivity.
Qed.

Lemma removal_is_logged_with_or_without_match_witness :
  inventory_changes
    (durable (snd (save_removed 1 $"Bread - 1 loaf"
                     (idle one_scan_db (mkSeqs 2 1 1) [] [] 7))))
  = [mkChange 1 1 $"Bread" $"removed" (Some $"Bread - 1 loaf") 7].
Proof.
  destruct (removal_is_logged_with_or_without_match 1 $"Bread - 1 loaf"
              one_scan_db (mkSeqs 2 1 1) [] 7) as (_ & H & _).
  - reflexivity.
  - reflexivity.
  - constructor.
  - rewrite H. vm_compute. reflexivity.
Defined.

(** C2 as stated fails: nothing matches "Bread" in an empty items table,
    and yet the removal leaves a change record behind. *)
Lemma unmatched_removal_is_persisted :
  let res := save_removed 1 $"Bread" (idle one_scan_db (mkSeqs 2 1 1) [] [] 7) in
  find (name_eq $"Bread") (pantry_items one_scan_db) = None
  /\ find (name_like $"Bread") (pantry_items one_scan_db) = None
  /\ console (snd res) = [ItemNotFoundForRemoval $"Bread"]
  /\ inventory_changes (durable (snd res))
     = [mkChange 1 1 $"Bread" $"removed" (Some $"Bread") 7]
  /\ inventory_changes (durable (snd res)) <> inventory_changes one_scan_db.
Proof. vm_compute. repeat split; discriminate. Qed.

Lemma hd_error_filter_some {A B} (f : A -> B) (cond : A -> bool) l x :
  In x l -> cond x = true -> exists y, hd_error (map f (filter cond l)) = Some y.
Proof.
  intros Hin Hc. assert (H : In x (filter cond l)) by (apply filter_In; auto).
  destruct (filter cond l) as [|z t]; [destruct H|].
  exists (f z). reflexivity.
Qed.

(** A removal whose exact lookup finds a row runs that one statement. *)
Lemma remove_item_exact name r db sq out fl now :
  In r (pantry_items db) -> name_eq name r = true ->
  hd false fl = false ->
  (forall x, In x (pantry_items db) -> name_eq name x = true -> decrementable x) ->
  remove_item name (idle db sq out fl now)
  = (Ok tt,
     idle (mkDatabase (pantry_scans db)
             (exact_removal name now (pantry_items db))
             (inventory_changes db))
       sq out (tl fl) now).
Proof.
  intros Hin Hr Hf Hd. unfold remove_item. run. rewrite Hf.
  rewrite (update_taken_ok_on (name_eq name) now sq db Hd).
  destruct (hd_error_filter_some item_id (name_eq name) _ r Hin Hr) as [id ->].
  reflexivity.
Qed.

(** C9: a removal whose name equals, case-insensitively, that of a
    deactivated row of quantity 0 succeeds on the exact lookup: the row
    keeps quantity 0 and stays inactive, its last-seen time becomes the
    current one, no other statement is run (one entry of the fault plan is
    used and nothing is printed), and every row with another name, such
    as an active row whose name contains the query, is left as it was. *)
Theorem exact_match_on_inactive_item (name : str) (r : Item) (db : Database)
    (sq : Seqs) (out : list Line) (fl : list bool) (now : timestamp) :
  In r (pantry_items db) ->
  name_eq name r = true ->
  current_quantity r = 0 ->
  is_active r = false ->
  hd false fl = false ->
  (forall x, In x (pantry_items db) -> name_eq name x = true -> decrementable x) ->
  let res := remove_item name (idle db sq out fl now) in
  let items' := pantry_items (durable (snd res)) in
  res = (Ok tt,
         idle (mkDatabase (pantry_scans db)
                 (exact_removal name now (pantry_items db))
                 (inventory_changes db))
           sq out (tl fl) now)
  /\ In (mkItem (item_id r) (item_name r) (category r) (first_detected r)
           now 0 false) items'
  /\ (forall x, In x (pantry_items db) -> name_eq name x = false ->
        In x items').
Proof.
  intros Hin Hr Hq Ha Hf Hd res items'. subst items' res.
  rewrite (remove_item_exact name r db sq out fl now Hin Hr Hf Hd).
  split; [reflexivity|]. simpl. unfold exact_removal. split.
  - apply in_map_iff. exists r. split; [|exact Hin].
    rewrite Hr. unfold taken_away. rewrite Hq. reflexivity.
  - intros x Hx Hne. apply in_map_iff. exists x. split; [|exact Hx].
    now rewrite Hne.
Qed.

Lemma exact_match_on_inactive_item_witness :
  remove_item $"water bottle" (idle bottle_db (mkSeqs 1 3 1) [] [] 9)
  = (Ok tt,
     idle (mkDatabase []
             [mkItem 1 $"Water bottle" None 1 9 0 false;
              mkItem 2 $"Children's water bottle with red spout" None 3 4 2 true]
             [])
       (mkSeqs 1 3 1) [] [] 9).
Proof.
  destruct (exact_match_on_inactive_item $"water bottle"
              (mkItem 1 $"Water bottle" None 1 2 0 false) bottle_db
              (mkSeqs 1 3 1) [] [] 9) as (H & _).
  - left. reflexivity.
  - reflexivity.
  - reflexivity.
  - reflexivity.
  - reflexivity.
  - intros x [<-|[<-|[]]] _; split; vm_compute; congruence.
  - exact H.
Defined.

(** *** The invariant of the items table *)









Lemma run_ops_app ops1 ops2 w :
  run_ops (ops1 ++ ops2) w = run_ops ops2 (run_ops ops1 w).
Proof. revert w. induction ops1 as [|o ops1 IH]; intros w; simpl; auto. Qed.

Lemma str_eqb_refl s : PyStr.eqb s s = true.
Proof. now apply str_eqb_eq. Qed.

(** *** The substring fallback *)

Lemma like_percent p text :
  like ("%"%char :: p) text
  = like p text
    || match text with
       | [] => false
       | _ :: text' => like ("%"%char :: p) text'
       end.
Proof. destruct text; reflexivity. Qed.

Lemma like_literal c p text :
  is_wildcard c = false ->
  like (c :: p) text
  = match text with
    | [] => false
    | x :: text' => eqb_char x c && like p text'
    end.
Proof.
  unfold is_wildcard. intros H.
  apply orb_false_iff in H. destruct H as [H H3].
  apply orb_false_iff in H. destruct H as [H1 H2].
  simpl. rewrite H1, H2, H3. destruct text; reflexivity.
Qed.

Lemma like_any text : like [ "%"%char ] text = true.
Proof.
  induction text as [|x text IH]; [reflexivity|].
  rewrite like_percent. rewrite IH. apply orb_true_r.
Qed.

Lemma eqb_char_sym a b : eqb_char a b = eqb_char b a.
Proof. apply Ascii.eqb_sym. Qed.

Lemma like_prefix name text :
  plain name = true -> like (name ++ [ "%"%char ]) text = startswith name text.
Proof.
  revert text. induction name as [|c name IH]; intros text H.
  - apply like_any.
  - simpl in H. apply andb_true_iff in H. destruct H as [Hc Hn].
    apply negb_true_iff in Hc. simpl app. rewrite (like_literal c _ text Hc).
    destruct text as [|x text]; [reflexivity|].
    simpl startswith. now rewrite IH, eqb_char_sym.
Qed.

Lemma like_contains name text :
  plain name = true ->
  like ("%"%char :: name ++ [ "%"%char ]) text = contains name text.
Proof.
  intros H. induction text as [|x text IH].
  - rewrite like_percent, like_prefix by exact H. reflexivity.
  - rewrite like_percent, like_prefix by exact H. rewrite IH. reflexivity.
Qed.

Lemma is_wildcard_lower c : is_wildcard (lower_char c) = is_wildcard c.
Proof. destruct c as [[] [] [] [] [] [] [] []]; reflexivity. Qed.

Lemma plain_lower name : plain (lower name) = plain name.
Proof.
  induction name as [|c name IH]; [reflexivity|].
  simpl. now rewrite is_wildcard_lower, IH.
Qed.

(** For a name without wildcard characters the fallback is the
    case-insensitive substring test on active rows. *)
Lemma name_like_plain name r :
  plain name = true ->
  name_like name r = contains (lower name) (lower (item_name r)) && is_active r.
Proof.
  intros H. unfold name_like. f_equal.
  unfold lower. rewrite map_app. simpl map. rewrite map_app.
  apply like_contains. fold (lower name). now rewrite plain_lower.
Qed.

(** C7 at an input with a wildcard character: "100% orange juice" matches
    no row exactly and is contained in no item name, and yet the fallback
    of the removal picks the row "Tropicana 100 percent orange juice",
    because the [%] of the name is read as a [LIKE] wildcard. *)
Theorem like_reads_percent_as_wildcard :
  let name := extract_item_name $"100% orange juice" in
  let res := remove_item name (idle juice_db (mkSeqs 1 2 1) [] [] 9) in
  name = $"100% orange juice"
  /\ find (name_eq name) (pantry_items juice_db) = None
  /\ existsb (fun r => contains (lower name) (lower (item_name r)))
       (pantry_items juice_db) = false
  /\ res = (Ok tt,
            idle (mkDatabase []
                    [mkItem 1 $"Tropicana 100 percent orange juice" None 1 9 0 false]
                    [])
              (mkSeqs 1 2 1) [FuzzyMatchedRemoval name] [] 9).
Proof. vm_compute. repeat split. Qed.

(** The example of the specification: no wildcard is involved and the
    fallback finds the row by substring. *)
Lemma water_bottle_fuzzy_match :
  plain $"water bottle" = true
  /\ remove_item $"water bottle"
       (idle (mkDatabase []
                [mkItem 1 $"Children's water bottle with red spout" None 1 2 1 true]
                [])
          (mkSeqs 1 2 1) [] [] 9)
     = (Ok tt,
        idle (mkDatabase []
                [mkItem 1 $"Children's water bottle with red spout" None 1 9 0 false]
                [])
          (mkSeqs 1 2 1) [FuzzyMatchedRemoval $"water bottle"] [] 9).
Proof. vm_compute. split; reflexivity. Qed.

(** ** More of the change extractor *)

Lemma grows_refl {A} (l : list A) : grows l l.
Proof. exists []. now rewrite app_nil_r. Qed.

Lemma grows_trans {A} (a b c : list A) : grows a b -> grows b c -> grows a c.
Proof. intros [r ->] [r' ->]. exists (r ++ r'). now rewrite app_assoc. Qed.

Lemma changes_grow_refl c : changes_grow c c.
Proof. repeat split; apply grows_refl. Qed.

Lemma changes_grow_trans a b c :
  changes_grow a b -> changes_grow b c -> changes_grow a c.
Proof.
  intros (A1 & A2 & A3) (B1 & B2 & B3).
  repeat split; eapply grows_trans; eassumption.
Qed.

Lemma append_to_grows sec item c : changes_grow c (append_to sec item c).
Proof.
  destruct sec; simpl; repeat split; simpl;
    try apply grows_refl; exists [item]; reflexivity.
Qed.

Lemma parse_line_grows sec c l : changes_grow c (snd (parse_line (sec, c) l)).
Proof.
  unfold parse_line.
  destruct (header_of (strip l)); [apply changes_grow_refl|].
  destruct (is_reset_line (strip l)); [apply changes_grow_refl|].
  destruct sec as [s|]; [|apply changes_grow_refl].
  destruct (negb (is_empty (strip l))); [|apply changes_grow_refl].
  destruct (item_of (strip l)); [apply append_to_grows | apply changes_grow_refl].
Qed.

Lemma parse_lines_grows ls st : changes_grow (snd st) (snd (parse_lines ls st)).
Proof.
  revert st. induction ls as [|l ls IH]; intros [sec c]; [apply changes_grow_refl|].
  change (parse_lines (l :: ls) (sec, c))
    with (parse_lines ls (parse_line (sec, c) l)).
  eapply changes_grow_trans; [apply (parse_line_grows sec c l) | apply IH].
Qed.

(** *** [split] on line breaks *)

Lemma split_go_cons sep c s :
  split_go sep 0 (c :: s)
  = if startswith sep (c :: s)
    then [] :: split_go sep (List.length sep - 1) s
    else cons_hd c (split_go sep 0 s).
Proof. reflexivity. Qed.

Lemma split_nonempty sep skip s : split_go sep skip s <> [].
Proof.
  revert skip. induction s as [|c s IH]; intros skip; [discriminate|].
  destruct skip as [|k]; [|apply IH].
  rewrite split_go_cons. destruct (startswith sep (c :: s)); [discriminate|].
  specialize (IH 0%nat). destruct (split_go sep 0 s); [congruence | discriminate].
Qed.

Lemma cons_hd_app c l r : l <> [] -> cons_hd c (l ++ r) = cons_hd c l ++ r.
Proof. destruct l; [congruence | reflexivity]. Qed.

Lemma contains_cons sub c s :
  contains sub (c :: s) = startswith sub (c :: s) || contains sub s.
Proof. reflexivity. Qed.

Lemma startswith_newline c s :
  startswith newline (c :: s) = eqb_char (ascii_of_nat 10) c.
Proof.
  change (startswith newline (c :: s))
    with (eqb_char (ascii_of_nat 10) c && true).
  apply andb_true_r.
Qed.

Lemma split_newline_cons c s :
  split newline (c :: s)
  = if eqb_char (ascii_of_nat 10) c then [] :: split newline s
    else cons_hd c (split newline s).
Proof.
  unfold split. rewrite split_go_cons.
  rewrite startswith_newline. reflexivity.
Qed.

Lemma split_newline_app t1 t2 :
  split newline (t1 ++ newline ++ t2) = split newline t1 ++ split newline t2.
Proof.
  induction t1 as [|c t1 IH].
  - reflexivity.
  - rewrite <- app_comm_cons, !split_newline_cons.
    destruct (eqb_char (ascii_of_nat 10) c).
    + now rewrite IH.
    + rewrite IH. apply cons_hd_app, split_nonempty.
Qed.

Lemma split_newline_line l :
  contains newline l = false -> split newline l = [l].
Proof.
  induction l as [|c l IH]; [reflexivity|].
  intros H. rewrite split_newline_cons.
  rewrite contains_cons, startswith_newline in H.
  apply orb_false_iff in H. destruct H as [H1 H2].
  rewrite H1. now rewrite (IH H2).
Qed.

Lemma split_join ls :
  ls <> [] -> Forall (fun l => contains newline l = false) ls ->
  split newline (join newline ls) = ls.
Proof.
  induction ls as [|l ls IH]; [congruence|].
  intros _ H. inversion H as [|? ? Hl Hls]; subst.
  destruct ls as [|l' ls].
  - simpl. now apply split_newline_line.
  - change (join newline (l :: l' :: ls))
      with (l ++ newline ++ join newline (l' :: ls)).
    rewrite split_newline_app, (split_newline_line l Hl), IH;
      [reflexivity | discriminate | exact Hls].
Qed.

(** X3: lines that follow never take back what the lines before them gave:
    the lists extracted from a text are carried over, in order, at the
    front of the lists extracted from the text with more lines after it. *)
Theorem parse_changes_grows (t1 t2 : str) :
  changes_grow (parse_changes t1) (parse_changes (t1 ++ newline ++ t2)).
Proof.
  unfold parse_changes. rewrite split_newline_app, parse_lines_app.
  apply parse_lines_grows.
Qed.

(** X1: a text none of whose lines is a section header, the empty text
    among them, gives three empty lists. *)
Theorem parse_changes_without_header (text : str) :
  Forall (fun l => header_of (strip l) = None) (split newline text) ->
  parse_changes text = no_changes.
Proof.
  intros H. unfold parse_changes. now rewrite (parse_lines_outside no_changes _ H).
Qed.

Lemma parse_changes_without_header_witness :
  parse_changes [] = no_changes
  /\ parse_changes ($"I see a shelf." ++ newline ++ $"- Milk" ++ newline ++ $"- Eggs")
     = no_changes.
Proof.
  split; apply parse_changes_without_header; vm_compute; repeat constructor.
Defined.

(** *** What an extracted item is *)

Lemma replace_go_cons old new c s :
  replace_go old new 0 (c :: s)
  = if startswith old (c :: s)
    then new ++ replace_go old new (List.length old - 1) s
    else c :: replace_go old new 0 s.
Proof. reflexivity. Qed.

Lemma startswith_star c s :
  startswith $"*" (c :: s) = eqb_char "*" c.
Proof.
  change (startswith $"*" (c :: s)) with (eqb_char "*" c && true).
  apply andb_true_r.
Qed.

Lemma startswith_stars c s :
  startswith $"**" (c :: s) = eqb_char "*" c && startswith $"*" s.
Proof. reflexivity. Qed.

(** After [replace('**', '')] no bold marker is left. *)
Lemma replace_stars skip s :
  contains $"**" (replace_go $"**" [] skip s) = false.
Proof.
  revert skip. induction s as [|c s IH]; intros skip; [reflexivity|].
  destruct skip as [|k]; [|apply IH].
  rewrite replace_go_cons.
  destruct (startswith $"**" (c :: s)) eqn:E; [apply IH|].
  rewrite contains_cons, IH, orb_false_r, startswith_stars.
  rewrite startswith_stars in E.
  destruct (eqb_char "*" c); [|reflexivity].
  rewrite andb_true_l in E. rewrite andb_true_l.
  destruct s as [|d s]; [reflexivity|].
  rewrite replace_go_cons, startswith_stars.
  rewrite startswith_star in E. rewrite E. rewrite andb_false_l.
  now rewrite startswith_star.
Qed.

(** Without a bold marker [replace('**', '')] changes nothing. *)
Lemma replace_absent old new s :
  contains old s = false -> replace old new s = s.
Proof.
  unfold replace. induction s as [|c s IH]; [reflexivity|].
  intros H. rewrite contains_cons in H.
  apply orb_false_iff in H. destruct H as [H1 H2].
  rewrite replace_go_cons, H1. now rewrite (IH H2).
Qed.

Lemma item_of_valid line item : item_of line = Some item -> valid_item item.
Proof.
  unfold item_of. destruct (is_bullet_line line); [|discriminate].
  set (it := replace $"**" [] (strip (strip_marks line))).
  destruct (negb (is_empty it)
            && negb (existsb (PyStr.eqb (lower it)) no_change_phrases)) eqn:E;
    [|discriminate].
  intros H. inversion H; subst item. clear H.
  apply andb_true_iff in E. destruct E as [E1 E2].
  apply negb_true_iff in E1, E2. repeat split.
  - intros Hnil. rewrite Hnil in E1. discriminate.
  - apply replace_stars.
  - exact E2.
Qed.

Lemma append_to_valid sec item c :
  valid_item item -> valid_changes c -> valid_changes (append_to sec item c).
Proof.
  intros Hi (H1 & H2 & H3).
  destruct sec; simpl; repeat split; simpl; auto;
    apply Forall_app; split; auto.
Qed.

Lemma parse_line_valid sec c l :
  valid_changes c -> valid_changes (snd (parse_line (sec, c) l)).
Proof.
  intros H. unfold parse_line.
  destruct (header_of (strip l)); [exact H|].
  destruct (is_reset_line (strip l)); [exact H|].
  destruct sec as [s|]; [|exact H].
  destruct (negb (is_empty (strip l))); [|exact H].
  destruct (item_of (strip l)) as [item|] eqn:E; [|exact H].
  apply append_to_valid; [eapply item_of_valid; exact E | exact H].
Qed.

Lemma parse_lines_valid ls st :
  valid_changes (snd st) -> valid_changes (snd (parse_lines ls st)).
Proof.
  revert st. induction ls as [|l ls IH]; intros [sec c] H; [exact H|].
  change (parse_lines (l :: ls) (sec, c))
    with (parse_lines ls (parse_line (sec, c) l)).
  apply IH. destruct (parse_line (sec, c) l) as [sec' c'] eqn:E.
  pose proof (parse_line_valid sec c l H) as H'. now rewrite E in H'.
Qed.

(** X2: whatever the text, no extracted item is empty, none holds a bold
    marker, and none is "none", "none detected" or "no changes detected"
    in any letter case. *)
Theorem parse_changes_items_valid (text : str) :
  valid_changes (parse_changes text).
Proof.
  unfold parse_changes. apply parse_lines_valid.
  repeat split; constructor.
Qed.

(** *** Writing a report and reading it back *)

Lemma drop_marks_space s : drop_marks (" "%char :: s) = " "%char :: s.
Proof. destruct s as [|c2 [|c3 s3]]; reflexivity. Qed.

Lemma reportable_line item :
  reportable item = true ->
  strip ($"- " ++ item) = $"- " ++ item
  /\ header_of ($"- " ++ item) = None
  /\ is_reset_line ($"- " ++ item) = false
  /\ item_of ($"- " ++ item) = Some item
  /\ contains newline ($"- " ++ item) = false.
Proof.
  unfold reportable. intros H.
  repeat (apply andb_true_iff in H; destruct H as [H ?]).
  repeat match goal with
         | H : negb _ = true |- _ => apply negb_true_iff in H
         end.
  destruct item as [|c item]; [discriminate|].
  assert (Hsp : is_space c = false).
  { match goal with H : head_ok _ = true |- _ => simpl in H; now apply negb_true_iff in H end. }
  assert (Hstrip : strip ($"- " ++ c :: item) = $"- " ++ c :: item).
  { apply strip_fixed; [reflexivity|]. assumption. }
  repeat split.
  - exact Hstrip.
  - destruct (header_of ($"- " ++ c :: item)); [discriminate | reflexivity].
  - assumption.
  - unfold item_of.
    change (is_bullet_line ($"- " ++ c :: item)) with true. cbv iota.
    assert (Hm : strip_marks ($"- " ++ c :: item) = c :: item).
    { unfold strip_marks.
      change (drop_marks ($"- " ++ c :: item))
        with (drop_marks (" "%char :: c :: item)).
      rewrite drop_marks_space.
      change (List.length (" "%char :: c :: item) =? List.length ($"- " ++ c :: item))%nat
        with (S (List.length (c :: item)) =? S (S (List.length (c :: item))))%nat.
      replace (S (List.length (c :: item)) =? S (S (List.length (c :: item))))%nat
        with false by (symmetry; apply Nat.eqb_neq; lia).
      simpl lstrip_by. now rewrite Hsp. }
    rewrite Hm.
    assert (Hs : strip (c :: item) = c :: item)
      by (apply strip_fixed; [simpl; now rewrite Hsp | assumption]).
    rewrite Hs, replace_absent by assumption.
    match goal with
    | H : existsb _ _ = false |- _ => rewrite H
    end. reflexivity.
  - change ($"- " ++ c :: item) with ("-"%char :: " "%char :: c :: item).
    rewrite contains_cons. rewrite startswith_newline.
    change (eqb_char (ascii_of_nat 10) "-") with false.
    rewrite orb_false_l, contains_cons, startswith_newline.
    change (eqb_char (ascii_of_nat 10) " ") with false.
    assumption.
Qed.

Lemma append_to_added x a r c :
  append_to Added x (mkChanges a r c) = mkChanges (a ++ [x]) r c.
Proof. reflexivity. Qed.

Lemma parse_bullets sec items c :
  forallb reportable items = true ->
  parse_lines (map (fun item => $"- " ++ item) items) (Some sec, c)
  = (Some sec, fold_left (fun c x => append_to sec x c) items c).
Proof.
  revert c. induction items as [|x items IH]; intros c H; [reflexivity|].
  simpl in H. apply andb_true_iff in H. destruct H as [Hx Hs].
  destruct (reportable_line x Hx) as (E1 & E2 & E3 & E4 & _).
  change (parse_lines (map (fun item => $"- " ++ item) (x :: items)) (Some sec, c))
    with (parse_lines (map (fun item => $"- " ++ item) items)
            (parse_line (Some sec, c) ($"- " ++ x))).
  assert (E : parse_line (Some sec, c) ($"- " ++ x) = (Some sec, append_to sec x c)).
  { unfold parse_line. rewrite E1, E2, E3, E4.
    change (is_empty ($"- " ++ x)) with false. reflexivity. }
  rewrite E. now rewrite IH.
Qed.

Lemma fold_append_added xs a r c :
  fold_left (fun c x => append_to Added x c) xs (mkChanges a r c)
  = mkChanges (a ++ xs) r c.
Proof.
  revert a. induction xs as [|x xs IH]; intros a; simpl.
  - now rewrite app_nil_r.
  - rewrite IH, <- app_assoc. reflexivity.
Qed.

Lemma fold_append_removed xs a r c :
  fold_left (fun c x => append_to Removed x c) xs (mkChanges a r c)
  = mkChanges a (r ++ xs) c.
Proof.
  revert r. induction xs as [|x xs IH]; intros r; simpl.
  - now rewrite app_nil_r.
  - rewrite IH, <- app_assoc. reflexivity.
Qed.

Lemma fold_append_changed xs a r c :
  fold_left (fun c x => append_to Changed x c) xs (mkChanges a r c)
  = mkChanges a r (c ++ xs).
Proof.
  revert c. induction xs as [|x xs IH]; intros c; simpl.
  - now rewrite app_nil_r.
  - rewrite IH, <- app_assoc. reflexivity.
Qed.

Lemma parse_section header sec items st :
  header_of (strip header) = Some sec ->
  forallb reportable items = true ->
  parse_lines (section_lines header items) st
  = (Some sec, fold_left (fun c x => append_to sec x c) items (snd st)).
Proof.
  intros Hh Hi. destruct st as [s0 c]. unfold section_lines.
  change (parse_lines (header :: map (fun item => $"- " ++ item) items) (s0, c))
    with (parse_lines (map (fun item => $"- " ++ item) items)
            (parse_line (s0, c) header)).
  assert (E : parse_line (s0, c) header = (Some sec, c))
    by (unfold parse_line; now rewrite Hh).
  rewrite E. now apply parse_bullets.
Qed.

Lemma report_lines_no_newline c :
  reportable_changes c ->
  Forall (fun l => contains newline l = false) (report_lines c).
Proof.
  intros (H1 & H2 & H3). unfold report_lines, section_lines.
  assert (B : forall items, forallb reportable items = true ->
              Forall (fun l => contains newline l = false)
                (map (fun item => $"- " ++ item) items)).
  { intros items H. apply Forall_map. apply Forall_forall. intros x Hx.
    rewrite forallb_forall in H. apply (reportable_line x (H x Hx)). }
  repeat (apply Forall_app; split);
    (constructor; [vm_compute; reflexivity | now apply B]).
Qed.

(** X4: a report that lists items as dash lines under the headers
    "ADDED ITEMS:", "REMOVED ITEMS:" and "QUANTITY CHANGED:" is read back
    into exactly the lists it was written from, provided each item text is
    one a dash line can carry. *)
Theorem parse_changes_report (c : Changes) :
  reportable_changes c -> parse_changes (report c) = c.
Proof.
  intros H. pose proof (report_lines_no_newline c H) as Hn.
  destruct H as (H1 & H2 & H3).
  unfold parse_changes, report.
  rewrite split_join; [|discriminate | exact Hn].
  unfold report_lines. rewrite !parse_lines_app.
  rewrite (parse_section $"ADDED ITEMS:" Added (added c) _ eq_refl H1).
  rewrite (parse_section $"REMOVED ITEMS:" Removed (removed c) _ eq_refl H2).
  rewrite (parse_section $"QUANTITY CHANGED:" Changed (changed c) _ eq_refl H3).
  cbn [snd]. unfold no_changes.
  rewrite fold_append_added, fold_append_removed, fold_append_changed.
  destruct c; reflexivity.
Qed.

Lemma parse_changes_report_witness :
  parse_changes
    (report (mkChanges [$"Kellogg's Froot Loops"; $"Poland Spring water bottle";
                        $"Germ-X hand sanitizer - 1 bottle"]
               [$"Coke"] []))
  = mkChanges [$"Kellogg's Froot Loops"; $"Poland Spring water bottle";
               $"Germ-X hand sanitizer - 1 bottle"]
      [$"Coke"] [].
Proof.
  apply parse_changes_report. repeat split; vm_compute; reflexivity.
Defined.

(** ** Properties of the tables that every operation keeps *)

Lemma save_scan_preserves P path text cost tin tout :
  keeps P (insert_scan path text cost tin tout) ->
  preserves P (save_scan path text cost tin tout).
Proof.
  intros K db sq out fl now HP.
  unfold keeps in *. unfold save_scan. run. cases; simpl; eauto.
Qed.

Lemma steady_try_except {A} P (body : M A) (handler : exn -> M A) :
  steady P body -> (forall e, steady P (handler e)) ->
  steady P (try_except body handler).
Proof.
  intros Hb Hh w Hs HP. unfold try_except.
  destruct (Hb w Hs HP) as [Hs' HP']. destruct (body w) as [[a|e] w']; simpl in *.
  - auto.
  - apply Hh; assumption.
Qed.

(** A property of the committed tables that the four operations keep is
    kept by a whole scan. *)
Lemma save_to_database_steady P :
  (forall path text cost tin tout, steady P (save_scan path text cost tin tout)) ->
  (forall name cat, steady P (add_item name cat)) ->
  (forall name, steady P (remove_item name)) ->
  (forall scan name kind det, steady P (log_change scan name kind det)) ->
  forall has_db path text cost tin tout,
    steady P (save_to_database has_db path text cost tin tout).
Proof.
  intros Hs Ha Hr Hl has_db path text cost tin tout.
  destruct has_db; [|apply steady_ret].
  rewrite save_to_database_unfold.
  apply steady_try_except; [|intros e; apply steady_print].
  apply steady_bind; [apply Hs|]. intros id. unfold save_events.
  apply steady_bind; [|intros _; apply steady_bind; [|intros _; apply steady_bind]].
  - apply steady_for_each. intros x. unfold save_added.
    apply steady_bind; [apply Ha | intros _; apply Hl].
  - apply steady_for_each. intros x. unfold save_removed.
    apply steady_bind; [apply Hr | intros _; apply Hl].
  - apply steady_for_each. intros x. apply Hl.
  - intros _. apply steady_print.
Qed.

(** The same from the statements, for a property that the insertion of an
    item keeps as well. *)
Lemma kept_by_scan P :
  kept_by_statements P ->
  (forall name cat, steady P (add_item name cat)) ->
  forall has_db path text cost tin tout db sq out fl now,
    P db ->
    P (durable (snd (save_to_database has_db path text cost tin tout
                       (idle db sq out fl now)))).
Proof.
  intros (K1 & K2 & K3 & K4) Ha has_db path text cost tin tout db sq out fl now HP.
  apply (save_to_database_steady P); try assumption; try reflexivity.
  - intros. eapply steady_intro; [apply save_scan_atomic|].
    apply save_scan_preserves, K1.
  - intros. eapply steady_intro; [apply remove_item_atomic|].
    apply remove_item_preserves, K3.
  - intros. eapply steady_intro; [apply log_change_atomic|].
    apply log_change_preserves, K4.
Qed.

Lemma add_item_steady_from_statements P name cat :
  kept_by_statements P -> keeps P (insert_item name cat) ->
  steady P (add_item name cat).
Proof.
  intros (_ & K2 & _) K. eapply steady_intro; [apply add_item_atomic|].
  apply add_item_preserves; assumption.
Qed.

(** *** The history is only added to *)

Lemma grows_app {A} (l m r : list A) : grows l m -> grows l (m ++ r).
Proof. intros [x ->]. exists (x ++ r). now rewrite app_assoc. Qed.

Lemma history_kept_statements S C : kept_by_statements (history_kept S C).
Proof.
  unfold kept_by_statements.
  split; [intros path text cost tin tout|];
  [|split; [intros id | split; [intros cond | intros scan name kind det]]];
    intros now sq db a sq' db' H [H1 H2].
  - apply insert_scan_inr in H. destruct H as (_ & ->). simpl.
    split; [now apply grows_app | exact H2].
  - apply update_seen_inr in H. destruct H as (_ & ->). split; assumption.
  - apply update_taken_inr in H. destruct H as (_ & -> & _). split; assumption.
  - apply insert_change_inr in H. subst. simpl.
    split; [exact H1 | now apply grows_app].
Qed.

Lemma history_kept_insert_item S C name cat :
  keeps (history_kept S C) (insert_item name cat).
Proof.
  intros now sq db a sq' db' H [H1 H2].
  apply insert_item_inr in H. destruct H as (_ & ->). split; assumption.
Qed.

(** X6: a scan only adds to the history: whatever the analysis says and
    whichever statements fail, the scan rows and change records that were
    in the database before [save_to_database] are there afterwards, in
    place and unchanged, followed by whatever the scan has added. *)
Theorem history_is_append_only (has_db : bool) (path : option str)
    (text : str) (cost tin tout : Z) (db : Database) (sq : Seqs)
    (out : list Line) (fl : list bool) (now : timestamp) :
  let db' := durable (snd (save_to_database has_db path text cost tin tout
                             (idle db sq out fl now))) in
  grows (pantry_scans db) (pantry_scans db')
  /\ grows (inventory_changes db) (inventory_changes db').
Proof.
  apply (kept_by_scan (history_kept (pantry_scans db) (inventory_changes db))).
  - apply history_kept_statements.
  - intros. apply add_item_steady_from_statements;
      [apply history_kept_statements | apply history_kept_insert_item].
  - split; apply grows_refl.
Qed.

(** *** Rows of the items table are never deleted *)

Lemma map_identity_update (cond : Item -> bool) (set : Item -> Item) items :
  (forall r, identity (set r) = identity r) ->
  map identity (map (fun r => if cond r then set r else r) items)
  = map identity items.
Proof.
  intros H. rewrite map_map. apply map_ext. intros r.
  destruct (cond r); [apply H | reflexivity].
Qed.

Lemma items_kept_statements L : kept_by_statements (items_kept L).
Proof.
  unfold items_kept, kept_by_statements.
  split; [intros path text cost tin tout|];
  [|split; [intros id | split; [intros cond | intros scan name kind det]]];
    intros now sq db a sq' db' H HP.
  - apply insert_scan_inr in H. destruct H as (_ & ->). exact HP.
  - apply update_seen_inr in H. destruct H as (_ & ->). simpl.
    now rewrite map_identity_update.
  - apply update_taken_inr in H. destruct H as (_ & -> & _). simpl.
    now rewrite map_identity_update.
  - apply insert_change_inr in H. subst. exact HP.
Qed.

Lemma items_kept_insert_item L name cat : keeps (items_kept L) (insert_item name cat).
Proof.
  unfold items_kept. intros now sq db a sq' db' H HP.
  apply insert_item_inr in H. destruct H as (_ & ->). simpl.
  rewrite map_app. now apply grows_app.
Qed.

(** X7: a scan deletes no item and rewrites no identity: whatever the
    analysis says and whichever statements fail, the rows that were in
    [pantry_items] are there afterwards, in place, each with the id, name,
    category and first-detected time it had; new rows come after them. *)
Theorem items_are_never_deleted (has_db : bool) (path : option str)
    (text : str) (cost tin tout : Z) (db : Database) (sq : Seqs)
    (out : list Line) (fl : list bool) (now : timestamp) :
  let db' := durable (snd (save_to_database has_db path text cost tin tout
                             (idle db sq out fl now))) in
  grows (map identity (pantry_items db)) (map identity (pantry_items db')).
Proof.
  apply (kept_by_scan (items_kept (pantry_items db))).
  - apply items_kept_statements.
  - intros. apply add_item_steady_from_statements;
      [apply items_kept_statements | apply items_kept_insert_item].
  - apply grows_refl.
Qed.

(** *** Change records belong to scans *)

Lemma has_scan_more_scans db db' c :
  grows (pantry_scans db) (pantry_scans db') ->
  has_scan db c = true -> has_scan db' c = true.
Proof.
  unfold has_scan. intros [r ->] H. rewrite existsb_app, H. reflexivity.
Qed.

Lemma changes_have_scans_frame db db' :
  grows (pantry_scans db) (pantry_scans db') ->
  inventory_changes db' = inventory_changes db ->
  changes_have_scans db -> changes_have_scans db'.
Proof.
  unfold changes_have_scans. intros Hs -> H.
  eapply Forall_impl; [|exact H]. intros c. now apply has_scan_more_scans.
Qed.

Lemma insert_change_checked scan name kind det now sq db a sq' db' :
  insert_change scan name kind det now sq db = inr (a, sq', db') ->
  existsb (fun s => scan_id s =? scan) (pantry_scans db) = true.
Proof.
  unfold insert_change.
  destruct (negb (in_int4 scan)); [discriminate|].
  destruct (negb (fits 200 name && fits 20 kind)); [discriminate|].
  destruct (existsb _ _); [reflexivity | discriminate].
Qed.

Lemma changes_have_scans_statements : kept_by_statements changes_have_scans.
Proof.
  unfold kept_by_statements.
  split; [intros path text cost tin tout|];
  [|split; [intros id | split; [intros cond | intros scan name kind det]]];
    intros now sq db a sq' db' H HP.
  - apply insert_scan_inr in H. destruct H as (_ & ->).
    eapply changes_have_scans_frame; [| |exact HP]; simpl;
      [eexists; reflexivity | reflexivity].
  - apply update_seen_inr in H. destruct H as (_ & ->).
    eapply changes_have_scans_frame; [| |exact HP]; simpl;
      [apply grows_refl | reflexivity].
  - apply update_taken_inr in H. destruct H as (_ & -> & _).
    eapply changes_have_scans_frame; [| |exact HP]; simpl;
      [apply grows_refl | reflexivity].
  - pose proof (insert_change_checked _ _ _ _ _ _ _ _ _ _ H) as Hfk.
    apply insert_change_inr in H. subst. unfold changes_have_scans. simpl.
    apply Forall_app. split; [exact HP|]. constructor; [exact Hfk | constructor].
Qed.

Lemma changes_have_scans_insert_item name cat :
  keeps changes_have_scans (insert_item name cat).
Proof.
  intros now sq db a sq' db' H HP.
  apply insert_item_inr in H. destruct H as (_ & ->).
  eapply changes_have_scans_frame; [| |exact HP]; simpl;
    [apply grows_refl | reflexivity].
Qed.

(** X9: if every change record belongs to a scan of [pantry_scans] before
    a scan is saved, every change record does so afterwards, whatever the
    analysis says and whichever statements fail. *)
Theorem changes_keep_their_scans (has_db : bool) (path : option str)
    (text : str) (cost tin tout : Z) (db : Database) (sq : Seqs)
    (out : list Line) (fl : list bool) (now : timestamp) :
  changes_have_scans db ->
  changes_have_scans
    (durable (snd (save_to_database has_db path text cost tin tout
                     (idle db sq out fl now)))).
Proof.
  apply (kept_by_scan changes_have_scans).
  - apply changes_have_scans_statements.
  - intros. apply add_item_steady_from_statements;
      [apply changes_have_scans_statements | apply changes_have_scans_insert_item].
Qed.

Lemma changes_keep_their_scans_witness :
  changes_have_scans
    (durable (snd (save_to_database true None two_items 5 10 20 lost_at_fifth))).
Proof.
  apply (changes_keep_their_scans true None two_items 5 10 20 empty_db
           (mkSeqs 1 1 1) [] [false; false; false; false; true] 7).
  constructor.
Defined.

(** *** Names stay unique up to letter case *)

Lemma names_update (cond : Item -> bool) (set : Item -> Item) items :
  (forall r, item_name (set r) = item_name r) ->
  map (fun r => lower (item_name r))
    (map (fun r => if cond r then set r else r) items)
  = map (fun r => lower (item_name r)) items.
Proof.
  intros H. rewrite map_map. apply map_ext. intros r.
  destruct (cond r); [now rewrite H | reflexivity].
Qed.

Lemma names_unique_statements : kept_by_statements names_unique.
Proof.
  unfold kept_by_statements, names_unique.
  split; [intros path text cost tin tout|];
  [|split; [intros id | split; [intros cond | intros scan name kind det]]];
    intros now sq db a sq' db' H HP.
  - apply insert_scan_inr in H. destruct H as (_ & ->). exact HP.
  - apply update_seen_inr in H. destruct H as (_ & ->). simpl.
    now rewrite names_update.
  - apply update_taken_inr in H. destruct H as (_ & -> & _). simpl.
    now rewrite names_update.
  - apply insert_change_inr in H. subst. exact HP.
Qed.

Lemma find_name_eq_none name items :
  find (name_eq name) items = None ->
  ~ In (lower name) (map (fun r => lower (item_name r)) items).
Proof.
  intros H Hin. apply in_map_iff in Hin. destruct Hin as (r & Hr & Hin).
  pose proof (List.find_none (name_eq name) items H r Hin) as F.
  unfold name_eq in F.
  rewrite Hr, str_eqb_refl in F. discriminate.
Qed.

Lemma NoDup_snoc {A} (l : list A) x : NoDup l -> ~ In x l -> NoDup (l ++ [x]).
Proof.
  induction 1 as [|y l Hy Hl IH]; intros Hx; simpl.
  - constructor; [intros [] | constructor].
  - constructor.
    + intros Hin. apply in_app_or in Hin. destruct Hin as [Hin|[->|[]]].
      * contradiction.
      * apply Hx. now left.
    + apply IH. intros Hin. apply Hx. now right.
Qed.

Lemma add_item_preserves_names name cat : preserves names_unique (add_item name cat).
Proof.
  intros db sq out fl now HP.
  destruct names_unique_statements as (_ & K2 & _).
  unfold add_item. run. cases; simpl; try exact HP.
  - eapply K2; eassumption.
  - match goal with
    | H : insert_item _ _ _ _ _ = inr _ |- _ =>
        apply insert_item_inr in H; destruct H as (_ & ->)
    end.
    unfold names_unique in *. simpl. rewrite map_app. simpl.
    apply NoDup_snoc; [exact HP|].
    apply find_name_eq_none.
    match goal with
    | H : option_map _ ?f = None |- _ => destruct f eqn:E; [discriminate | reflexivity]
    end.
Qed.

(** X8: if no two rows of [pantry_items] have the same name up to letter
    case before a scan is saved, none have afterwards, whatever the
    analysis says and whichever statements fail: an item is inserted only
    when the case-insensitive lookup finds no row of its name. *)
Theorem names_stay_unique (has_db : bool) (path : option str)
    (text : str) (cost tin tout : Z) (db : Database) (sq : Seqs)
    (out : list Line) (fl : list bool) (now : timestamp) :
  names_unique db ->
  names_unique
    (durable (snd (save_to_database has_db path text cost tin tout
                     (idle db sq out fl now)))).
Proof.
  apply (kept_by_scan names_unique).
  - apply names_unique_statements.
  - intros. eapply steady_intro; [apply add_item_atomic|].
    apply add_item_preserves_names.
Qed.

Lemma names_stay_unique_witness :
  map item_name
    (pantry_items
       (durable (snd (save_to_database true None coke_twice 5 10 20
                        (idle empty_db (mkSeqs 1 1 1) [] [] 7)))))
  = [$"Coke"]
  /\ names_unique
       (durable (snd (save_to_database true None coke_twice 5 10 20
                        (idle empty_db (mkSeqs 1 1 1) [] [] 7)))).
Proof.
  split; [vm_compute; reflexivity|].
  apply (names_stay_unique true None coke_twice 5 10 20 empty_db
           (mkSeqs 1 1 1) [] [] 7).
  constructor.
Defined.

(** ** Quantities *)

Lemma update_items_checked (cond : Item -> bool) (set : Item -> Item)
    (ok : Item -> bool) db ids db' r :
  update_items cond set ok db = inr (ids, db') ->
  In r (pantry_items db) -> cond r = true -> ok r = true.
Proof.
  intros H Hin Hc. apply update_items_inr in H. destruct H as (_ & _ & H).
  rewrite forallb_forall in H. apply H. apply filter_In. auto.
Qed.

Lemma quantities_in_range_statements : kept_by_statements quantities_in_range.
Proof.
  unfold kept_by_statements, quantities_in_range.
  split; [intros path text cost tin tout|];
  [|split; [intros id | split; [intros cond | intros scan name kind det]]];
    intros now sq db a sq' db' H HP.
  - apply insert_scan_inr in H. destruct H as (_ & ->). exact HP.
  - unfold update_seen in H.
    destruct (update_items (has_id id) (seen_again now) _ db) as [e|[ids d]] eqn:E;
      [discriminate|].
    inversion H; subst.
    pose proof (fun r => update_items_checked _ _ _ _ _ _ r E) as Hok.
    apply update_items_inr in E. destruct E as (-> & _). simpl.
    apply Forall_map. apply Forall_forall. intros r Hr.
    rewrite Forall_forall in HP. destruct (has_id id r) eqn:Ei; [|now apply HP].
    specialize (Hok r Hr Ei). unfold in_int4 in Hok.
    apply andb_true_iff in Hok. destruct Hok as [H1 H2].
    apply Z.leb_le in H1, H2. split; simpl; assumption.
  - apply update_taken_inr in H. destruct H as (_ & -> & _). simpl.
    apply Forall_map. eapply Forall_impl; [|exact HP].
    intros r Hr. destruct (cond r); [|exact Hr].
    unfold quantity_in_range, int4_min, int4_max in *. simpl. lia.
  - apply insert_change_inr in H. subst. exact HP.
Qed.

Lemma quantities_in_range_insert_item name cat :
  keeps quantities_in_range (insert_item name cat).
Proof.
  intros now sq db a sq' db' H HP.
  apply insert_item_inr in H. destruct H as (_ & ->).
  unfold quantities_in_range. simpl. apply Forall_app. split; [exact HP|].
  constructor; [|constructor].
  unfold quantity_in_range, int4_min, int4_max. simpl. lia.
Qed.

(** An addition to a row at the top of the range raises and stores
    nothing. *)
Lemma add_item_at_the_top name cat r db sq out fl now :
  find (name_eq name) (pantry_items db) = Some r ->
  current_quantity r = int4_max ->
  hd false fl = false -> hd false (tl fl) = false ->
  add_item name cat (idle db sq out fl now)
  = (Raised NumericValueOutOfRange,
     idle db sq (out ++ [ErrorAddingItem NumericValueOutOfRange]) (tl (tl fl))
       now).
Proof.
  intros Hfind Hq Hf1 Hf2. unfold add_item. run. rewrite Hf1.
  unfold select_item. rewrite Hfind. simpl. rewrite Hf2.
  unfold update_seen, update_items.
  assert (E : forallb (fun x => in_int4 (current_quantity x + 1))
                (filter (has_id (item_id r)) (pantry_items db)) = false).
  { apply not_true_is_false. intros H. rewrite forallb_forall in H.
    apply find_some in Hfind. destruct Hfind as [Hin _].
    specialize (H r). rewrite Hq in H.
    assert (Hr : In r (filter (has_id (item_id r)) (pantry_items db))).
    { apply filter_In. split; [exact Hin|]. unfold has_id. apply Z.eqb_refl. }
    specialize (H Hr). vm_compute in H. discriminate. }
  rewrite E. reflexivity.
Qed.

(** X10: no scan stores a quantity that an INTEGER column cannot hold: if
    the quantities are inside the range before [save_to_database], they
    are afterwards, whatever the analysis says and whichever statements
    fail.  The range is kept by refusing, not by wrapping around: an
    addition to a row whose quantity is 2147483647 raises
    [NumericValueOutOfRange], prints its error and leaves the tables as
    they were. *)
Theorem quantities_stay_in_range :
  (forall (has_db : bool) (path : option str) (text : str) (cost tin tout : Z)
          (db : Database) (sq : Seqs) (out : list Line) (fl : list bool)
          (now : timestamp),
      quantities_in_range db ->
      quantities_in_range
        (durable (snd (save_to_database has_db path text cost tin tout
                         (idle db sq out fl now)))))
  /\ (forall (name : str) (cat : option str) (r : Item) (db : Database)
             (sq : Seqs) (out : list Line) (fl : list bool) (now : timestamp),
        find (name_eq name) (pantry_items db) = Some r ->
        current_quantity r = int4_max ->
        hd false fl = false -> hd false (tl fl) = false ->
        add_item name cat (idle db sq out fl now)
        = (Raised NumericValueOutOfRange,
           idle db sq (out ++ [ErrorAddingItem NumericValueOutOfRange])
             (tl (tl fl)) now)).
Proof.
  split.
  - intros has_db path text cost tin tout db sq out fl now.
    apply (kept_by_scan quantities_in_range).
    + apply quantities_in_range_statements.
    + intros. apply add_item_steady_from_statements;
        [apply quantities_in_range_statements
        | apply quantities_in_range_insert_item].
  - exact add_item_at_the_top.
Qed.

Lemma quantities_stay_in_range_witness :
  quantities_in_range
    (durable (snd (save_to_database true None two_items 5 10 20
                     (idle full_shelf (mkSeqs 1 2 1) [] [] 7))))
  /\ add_item $"milk" None (idle full_shelf (mkSeqs 1 2 1) [] [] 7)
     = (Raised NumericValueOutOfRange,
        idle full_shelf (mkSeqs 1 2 1)
          [ErrorAddingItem NumericValueOutOfRange] [] 7).
Proof.
  destruct quantities_stay_in_range as [H1 H2]. split.
  - apply (H1 true None two_items 5 10 20 full_shelf (mkSeqs 1 2 1) [] [] 7).
    constructor; [|constructor].
    unfold quantity_in_range, int4_min, int4_max. simpl. lia.
  - apply (H2 $"milk" None (mkItem 1 $"Milk" None 0 0 2147483647 true)
             full_shelf (mkSeqs 1 2 1) [] [] 7); reflexivity.
Defined.

(** ** Adding and removing one item *)

Lemma NoDup_map_inj {A B} (f : A -> B) l a b :
  NoDup (map f l) -> In a l -> In b l -> f a = f b -> a = b.
Proof.
  induction l as [|x l IH]; simpl; [intros _ []|].
  intros H Ha Hb E. inversion H as [|? ? Hx Hl]; subst.
  destruct Ha as [->|Ha], Hb as [->|Hb]; auto.
  - exfalso. apply Hx. rewrite E. now apply in_map.
  - exfalso. apply Hx. rewrite <- E. now apply in_map.
Qed.

Lemma name_eq_lower name r : name_eq name r = true <-> lower (item_name r) = lower name.
Proof. unfold name_eq. apply str_eqb_eq. Qed.

Lemma name_eq_same_lower n1 n2 r :
  lower n1 = lower n2 -> name_eq n1 r = name_eq n2 r.
Proof. unfold name_eq. now intros ->. Qed.

(** Under unique names the lookup finds the one row of that name. *)
Lemma find_name_unique name r db :
  names_unique db -> In r (pantry_items db) -> name_eq name r = true ->
  find (name_eq name) (pantry_items db) = Some r.
Proof.
  intros Hu Hin Hr. destruct (find (name_eq name) (pantry_items db)) as [r0|] eqn:E.
  - apply find_some in E. destruct E as [Hin0 Hr0]. f_equal.
    apply (NoDup_map_inj (fun x => lower (item_name x)) (pantry_items db));
      try assumption.
    apply name_eq_lower in Hr, Hr0. congruence.
  - pose proof (List.find_none _ _ E r Hin). congruence.
Qed.

Lemma has_id_is_name_eq name r db x :
  names_unique db -> ids_unique db ->
  In r (pantry_items db) -> name_eq name r = true ->
  In x (pantry_items db) ->
  has_id (item_id r) x = name_eq name x.
Proof.
  intros Hn Hi Hr Hnr Hx. unfold has_id.
  destruct (item_id x =? item_id r) eqn:E1; destruct (name_eq name x) eqn:E2;
    try reflexivity; exfalso.
  - apply Z.eqb_eq in E1.
    assert (x = r) by (apply (NoDup_map_inj item_id (pantry_items db)); assumption).
    subst. congruence.
  - apply Z.eqb_neq in E1. apply E1.
    assert (x = r); [|now subst].
    apply (NoDup_map_inj (fun y => lower (item_name y)) (pantry_items db));
      try assumption.
    apply name_eq_lower in Hnr, E2. congruence.
Qed.

Lemma map_cond_ext {A} (c1 c2 : A -> bool) (f : A -> A) l :
  (forall x, In x l -> c1 x = c2 x) ->
  map (fun x => if c1 x then f x else x) l
  = map (fun x => if c2 x then f x else x) l.
Proof. intros H. apply map_ext_in. intros x Hx. now rewrite (H x Hx). Qed.

(** An addition whose name is in the table, on a sound connection. *)
Lemma add_item_known name cat r db sq out now :
  names_unique db -> ids_unique db ->
  In r (pantry_items db) -> name_eq name r = true ->
  in_int4 (current_quantity r + 1) = true ->
  add_item name cat (idle db sq out [] now)
  = (Ok (item_id r),
     idle (mkDatabase (pantry_scans db)
             (map (fun x => if name_eq name x then seen_again now x else x)
                (pantry_items db))
             (inventory_changes db))
       sq out [] now).
Proof.
  intros Hn Hi Hr Hnr Hq. unfold add_item. run. unfold select_item.
  rewrite (find_name_unique name r db Hn Hr Hnr). simpl.
  unfold update_seen, update_items.
  assert (E : forallb (fun x => in_int4 (current_quantity x + 1))
                (filter (has_id (item_id r)) (pantry_items db)) = true).
  { apply forallb_forall. intros x Hx. apply filter_In in Hx.
    destruct Hx as [Hx Hid].
    rewrite (has_id_is_name_eq name r db x Hn Hi Hr Hnr Hx) in Hid.
    assert (x = r); [|now subst].
    apply (NoDup_map_inj (fun y => lower (item_name y)) (pantry_items db));
      try assumption.
    apply name_eq_lower in Hnr, Hid. congruence. }
  rewrite E. simpl.
  rewrite (map_cond_ext (has_id (item_id r)) (name_eq name));
    [reflexivity|].
  intros x Hx. now apply (has_id_is_name_eq name r db x).
Qed.

Lemma taken_away_seen_again now r :
  item_ok r -> taken_away now (seen_again now r) = touched now r.
Proof.
  intros [Hq Ha]. unfold taken_away, seen_again, touched. simpl. f_equal.
  - lia.
  - destruct (current_quantity r + 1 <=? 1) eqn:E.
    + apply Z.leb_le in E. destruct (is_active r); [|reflexivity].
      assert (0 < current_quantity r) by now apply Ha. lia.
    + apply Z.leb_gt in E. symmetry. apply Ha. lia.
Qed.

(** X11: on a table with unique names and ids that keeps the invariant of
    the data model, adding an item that is in the table and then removing
    it, under whatever spellings of its name, puts its quantity and its
    active flag back to what they were; only its last-seen time has
    moved, and no other row is touched. *)
Theorem add_then_remove_is_neutral (n1 n2 : str) (cat : option str)
    (r : Item) (db : Database) (sq : Seqs) (out : list Line)
    (now : timestamp) :
  names_unique db -> ids_unique db -> items_ok db ->
  In r (pantry_items db) ->
  lower (item_name r) = lower n1 -> lower n2 = lower n1 ->
  current_quantity r < int4_max ->
  run_ops [OpAdd n1 cat; OpRemove n2] (idle db sq out [] now)
  = idle (mkDatabase (pantry_scans db)
            (map (fun x => if name_eq n1 x then touched now x else x)
               (pantry_items db))
            (inventory_changes db))
      sq out [] now.
Proof.
  intros Hn Hi Hok Hr Hn1 Hn2 Hmax.
  assert (Hnr : name_eq n1 r = true) by now apply name_eq_lower.
  assert (Hqr : 0 <= current_quantity r).
  { unfold items_ok in Hok. rewrite Forall_forall in Hok. apply (Hok r Hr). }
  simpl run_ops. unfold bind at 1.
  rewrite (add_item_known n1 cat r db sq out now Hn Hi Hr Hnr).
  2:{ unfold in_int4, int4_min, int4_max in *.
      apply andb_true_iff. split; apply Z.leb_le; lia. }
  cbn [snd ret].
  rewrite (remove_item_exact n2 (seen_again now r)).
  - cbn [snd pantry_items pantry_scans inventory_changes].
    unfold exact_removal. rewrite map_map. f_equal. f_equal.
    apply map_ext_in. intros x Hx.
    rewrite (name_eq_same_lower n2 n1) by exact Hn2.
    destruct (name_eq n1 x) eqn:E.
    + change (name_eq n1 (seen_again now x)) with (name_eq n1 x). rewrite E.
      apply taken_away_seen_again.
      unfold items_ok in Hok. rewrite Forall_forall in Hok. now apply Hok.
    + now rewrite E.
  - cbn [pantry_items]. apply in_map_iff. exists r. now rewrite Hnr.
  - rewrite (name_eq_same_lower n2 n1) by exact Hn2. exact Hnr.
  - reflexivity.
  - cbn [pantry_items]. intros x Hx Hnx. apply in_map_iff in Hx.
    destruct Hx as (x0 & <- & Hx0).
    rewrite (name_eq_same_lower n2 n1) in Hnx by exact Hn2.
    destruct (name_eq n1 x0) eqn:E.
    + assert (x0 = r); [|subst x0].
      { apply (NoDup_map_inj (fun y => lower (item_name y)) (pantry_items db));
          try assumption.
        apply name_eq_lower in E. congruence. }
      unfold decrementable, int4_min, int4_max in *. simpl. lia.
    + congruence.
Qed.

Lemma add_then_remove_is_neutral_witness :
  run_ops [OpAdd $"milk" None; OpRemove $"MILK"] (idle two_rows (mkSeqs 1 3 1) [] [] 9)
  = idle (mkDatabase []
            [mkItem 1 $"Coke" None 1 2 3 true; mkItem 2 $"Milk" None 1 9 0 false]
            [])
      (mkSeqs 1 3 1) [] [] 9.
Proof.
  rewrite (add_then_remove_is_neutral $"milk" $"MILK" None
             (mkItem 2 $"Milk" None 1 2 0 false) two_rows (mkSeqs 1 3 1) [] 9).
  - vm_compute. reflexivity.
  - unfold names_unique. vm_compute. repeat constructor; simpl; intuition discriminate.
  - unfold ids_unique. vm_compute. repeat constructor; simpl; intuition discriminate.
  - repeat constructor; simpl; try lia; intuition discriminate.
  - right. left. reflexivity.
  - vm_compute. reflexivity.
  - vm_compute. reflexivity.
  - unfold int4_max. simpl. lia.
Defined.

(** ** Counting additions *)

(** An addition whose name is not in the table, on a sound connection. *)
Lemma add_item_unknown name cat db sq out now :
  (forall r, In r (pantry_items db) -> name_eq name r = false) ->
  fits 200 name = true -> fits_opt 100 cat = true ->
  add_item name cat (idle db sq out [] now)
  = (Ok (next_item_id sq),
     idle (mkDatabase (pantry_scans db)
             (pantry_items db ++ [mkItem (next_item_id sq) name cat now now 1 true])
             (inventory_changes db))
       (mkSeqs (next_scan_id sq) (next_item_id sq + 1) (next_change_id sq))
       out [] now).
Proof.
  intros Hno Hf Hc. unfold add_item. run. unfold select_item.
  rewrite (find_none _ _ Hno). simpl. unfold insert_item.
  rewrite Hf, Hc. reflexivity.
Qed.

Lemma with_row_names db id name now q :
  map (fun r => lower (item_name r)) (pantry_items (with_row db id name now q))
  = map (fun r => lower (item_name r)) (pantry_items db) ++ [lower name].
Proof. unfold with_row. simpl. now rewrite map_app. Qed.

Lemma with_row_ids db id name now q :
  map item_id (pantry_items (with_row db id name now q))
  = map item_id (pantry_items db) ++ [id].
Proof. unfold with_row. simpl. now rewrite map_app. Qed.

Lemma add_item_to_row m db id name now q sq out :
  (forall r, In r (pantry_items db) -> name_eq name r = false) ->
  names_unique db -> ids_unique db ->
  ~ In id (map item_id (pantry_items db)) ->
  lower m = lower name ->
  in_int4 (q + 1) = true ->
  add_item m None (idle (with_row db id name now q) sq out [] now)
  = (Ok id, idle (with_row db id name now (q + 1)) sq out [] now).
Proof.
  intros Hno Hn Hi Hid Hm Hq.
  assert (Hno' : forall r, In r (pantry_items db) -> name_eq m r = false).
  { intros r Hr. rewrite (name_eq_same_lower m name) by exact Hm. now apply Hno. }
  rewrite (add_item_known m None (mkItem id name None now now q true)).
  - unfold with_row. cbn [pantry_scans pantry_items inventory_changes item_id].
    rewrite map_app, (map_unchanged _ _ _ Hno'). simpl.
    assert (E : name_eq m (mkItem id name None now now q true) = true)
      by (apply name_eq_lower; simpl; congruence).
    rewrite E. reflexivity.
  - unfold names_unique. rewrite with_row_names. apply NoDup_snoc; [exact Hn|].
    intros Hin. apply in_map_iff in Hin. destruct Hin as (r & Hr & Hin).
    specialize (Hno r Hin). apply name_eq_lower in Hr. congruence.
  - unfold ids_unique. rewrite with_row_ids. now apply NoDup_snoc.
  - unfold with_row. simpl. apply in_or_app. right. now left.
  - apply name_eq_lower. simpl. congruence.
  - exact Hq.
Qed.

Lemma adds_to_row ns db id name now q sq out :
  (forall r, In r (pantry_items db) -> name_eq name r = false) ->
  names_unique db -> ids_unique db ->
  ~ In id (map item_id (pantry_items db)) ->
  Forall (fun m => lower m = lower name) ns ->
  0 <= q -> q + Z.of_nat (List.length ns) <= int4_max ->
  run_ops (map (fun m => OpAdd m None) ns)
    (idle (with_row db id name now q) sq out [] now)
  = idle (with_row db id name now (q + Z.of_nat (List.length ns))) sq out [] now.
Proof.
  intros Hno Hn Hi Hid. revert q. induction ns as [|m ns IH]; intros q Hns Hq Hmax.
  - simpl. now rewrite Z.add_0_r.
  - inversion Hns as [|? ? Hm Hns']; subst.
    change (run_ops (map (fun m => OpAdd m None) (m :: ns))
              (idle (with_row db id name now q) sq out [] now))
      with (run_ops (map (fun m => OpAdd m None) ns)
              (snd (bind (add_item m None) (fun _ => ret tt)
                      (idle (with_row db id name now q) sq out [] now)))).
    unfold bind.
    rewrite (add_item_to_row m db id name now q sq out Hno Hn Hi Hid Hm).
    + cbn [snd ret]. rewrite IH; [|exact Hns'|lia|].
      * f_equal. f_equal. change (List.length (m :: ns)) with (S (List.length ns)). lia.
      * change (List.length (m :: ns)) with (S (List.length ns)) in Hmax. lia.
    + change (List.length (m :: ns)) with (S (List.length ns)) in Hmax.
      unfold in_int4, int4_min, int4_max in *.
      apply andb_true_iff. split; apply Z.leb_le; lia.
Qed.

(** X12: additions count whatever their spelling: on a table with unique
    names and ids that has no row of that name, adding a name and then
    further spellings of it that differ in letter case only leaves one new
    row, stored under the first spelling, whose quantity is the number of
    additions; the other rows are as they were. *)
Theorem additions_count_in_one_row (name : str) (ns : list str)
    (db : Database) (sq : Seqs) (out : list Line) (now : timestamp) :
  (forall r, In r (pantry_items db) -> name_eq name r = false) ->
  names_unique db -> ids_unique db ->
  ~ In (next_item_id sq) (map item_id (pantry_items db)) ->
  fits 200 name = true ->
  Forall (fun m => lower m = lower name) ns ->
  Z.of_nat (S (List.length ns)) <= int4_max ->
  run_ops (map (fun m => OpAdd m None) (name :: ns)) (idle db sq out [] now)
  = idle (mkDatabase (pantry_scans db)
            (pantry_items db
             ++ [mkItem (next_item_id sq) name None now now
                   (Z.of_nat (S (List.length ns))) true])
            (inventory_changes db))
      (mkSeqs (next_scan_id sq) (next_item_id sq + 1) (next_change_id sq))
      out [] now.
Proof.
  intros Hno Hn Hi Hid Hf Hns Hmax.
  change (run_ops (map (fun m => OpAdd m None) (name :: ns)) (idle db sq out [] now))
    with (run_ops (map (fun m => OpAdd m None) ns)
            (snd (bind (add_item name None) (fun _ => ret tt)
                    (idle db sq out [] now)))).
  unfold bind. rewrite (add_item_unknown name None db sq out now Hno Hf eq_refl).
  cbn [snd ret].
  change (mkDatabase (pantry_scans db)
            (pantry_items db ++ [mkItem (next_item_id sq) name None now now 1 true])
            (inventory_changes db))
    with (with_row db (next_item_id sq) name now 1).
  rewrite (adds_to_row ns db (next_item_id sq) name now 1); try assumption; try lia.
  unfold with_row.
  replace (1 + Z.of_nat (List.length ns)) with (Z.of_nat (S (List.length ns))) by lia.
  reflexivity.
Qed.

Lemma additions_count_in_one_row_witness :
  run_ops (map (fun m => OpAdd m None) [$"Coke"; $"COKE"; $"coke"])
    (idle two_rows (mkSeqs 1 3 1) [] [] 9)
  = idle (mkDatabase []
            [mkItem 1 $"Coke" None 1 9 6 true; mkItem 2 $"Milk" None 1 2 0 false]
            [])
      (mkSeqs 1 3 1) [] [] 9
  /\ run_ops (map (fun m => OpAdd m None) [$"Eggs"; $"EGGS"; $"eggs"])
       (idle two_rows (mkSeqs 1 3 1) [] [] 9)
     = idle (mkDatabase []
               [mkItem 1 $"Coke" None 1 2 3 true; mkItem 2 $"Milk" None 1 2 0 false;
                mkItem 3 $"Eggs" None 9 9 3 true]
               [])
         (mkSeqs 1 4 1) [] [] 9.
Proof.
  split; [vm_compute; reflexivity|].
  rewrite (additions_count_in_one_row $"Eggs" [$"EGGS"; $"eggs"] two_rows
             (mkSeqs 1 3 1) [] 9).
  - vm_compute. reflexivity.
  - intros r [<-|[<-|[]]]; vm_compute; reflexivity.
  - unfold names_unique. vm_compute. repeat constructor; simpl; intuition discriminate.
  - unfold ids_unique. vm_compute. repeat constructor; simpl; intuition discriminate.
  - vm_compute. intuition discriminate.
  - reflexivity.
  - repeat constructor.
  - unfold int4_max. simpl. lia.
Defined.

(** *** The quantity under any sequence of operations *)


















(** ** The fallback of a removal *)

Lemma find_ext_in {A} (f g : A -> bool) l :
  (forall x, In x l -> f x = g x) -> find f l = find g l.
Proof.
  induction l as [|x l IH]; intros H; [reflexivity|].
  simpl. rewrite (H x (or_introl eq_refl)).
  destruct (g x); [reflexivity|]. apply IH. intros y Hy. apply H. now right.
Qed.

(** The removal of a name without wildcards that no row carries exactly. *)
Lemma remove_item_fallback (name : str) (m : Item) (db : Database)
    (sq : Seqs) (out : list Line) (now : timestamp) :
  plain name = true ->
  (forall r, In r (pantry_items db) -> name_eq name r = false) ->
  find (holds_name name) (pantry_items db) = Some m ->
  ids_unique db ->
  Forall decrementable (pantry_items db) ->
  let res := remove_item name (idle db sq out [] now) in
  res = (Ok tt,
         idle (mkDatabase (pantry_scans db)
                 (map (fun x => if has_id (item_id m) x then taken_away now x else x)
                    (pantry_items db))
                 (inventory_changes db))
           sq (out ++ [FuzzyMatchedRemoval name]) [] now)
  /\ In (taken_away now m) (pantry_items (durable (snd res)))
  /\ (forall x, In x (pantry_items db) -> x <> m ->
        In x (pantry_items (durable (snd res)))).
Proof.
  intros Hp Hno Hm Hi Hd res.
  assert (Hin : In m (pantry_items db)) by (apply find_some in Hm; tauto).
  assert (E : res = (Ok tt,
         idle (mkDatabase (pantry_scans db)
                 (map (fun x => if has_id (item_id m) x then taken_away now x else x)
                    (pantry_items db))
                 (inventory_changes db))
           sq (out ++ [FuzzyMatchedRemoval name]) [] now)).
  { subst res. unfold remove_item. run.
    unfold update_taken at 1. unfold update_items.
    rewrite (filter_none _ _ Hno), (map_unchanged _ _ _ Hno). simpl.
    rewrite (find_ext_in (name_like name) (holds_name name))
      by (intros x _; apply name_like_plain, Hp).
    rewrite Hm. simpl. rewrite database_eta.
    rewrite (update_taken_ok (has_id (item_id m)) now sq db Hd).
    destruct (hd_error_filter_some item_id (has_id (item_id m)) _ m Hin
                (Z.eqb_refl _)) as [id ->].
    reflexivity. }
  split; [exact E|]. rewrite E. cbn [snd durable idle pantry_items]. split.
  - apply in_map_iff. exists m. split; [|exact Hin].
    unfold has_id. now rewrite Z.eqb_refl.
  - intros x Hx Hne. apply in_map_iff. exists x. split; [|exact Hx].
    destruct (has_id (item_id m) x) eqn:Ex; [|reflexivity].
    exfalso. apply Hne. unfold has_id in Ex. apply Z.eqb_eq in Ex.
    now apply (NoDup_map_inj item_id (pantry_items db)).
Qed.

(** X13: for a name without [%], [_] and backslash that no row carries
    exactly, the removal falls back on the first active row whose name
    contains it, letter case aside: that row loses one unit (and is
    deactivated at 0), "fuzzy matched" is printed, and with unique ids
    every other row is left as it was. *)
Theorem fallback_takes_first_holder (name : str) (m : Item) (db : Database)
    (sq : Seqs) (out : list Line) (now : timestamp) :
  plain name = true ->
  (forall r, In r (pantry_items db) -> name_eq name r = false) ->
  find (holds_name name) (pantry_items db) = Some m ->
  ids_unique db ->
  Forall decrementable (pantry_items db) ->
  let res := remove_item name (idle db sq out [] now) in
  res = (Ok tt,
         idle (mkDatabase (pantry_scans db)
                 (map (fun x => if has_id (item_id m) x then taken_away now x else x)
                    (pantry_items db))
                 (inventory_changes db))
           sq (out ++ [FuzzyMatchedRemoval name]) [] now)
  /\ In (taken_away now m) (pantry_items (durable (snd res)))
  /\ (forall x, In x (pantry_items db) -> x <> m ->
        In x (pantry_items (durable (snd res)))).
Proof. exact (remove_item_fallback name m db sq out now). Qed.

Lemma fallback_takes_first_holder_witness :
  remove_item $"water bottle" (idle bottles (mkSeqs 1 4 1) [] [] 9)
  = (Ok tt,
     idle (mkDatabase []
             [mkItem 1 $"Water bottle rack" None 1 2 0 false;
              mkItem 2 $"Children's water bottle with red spout" None 1 9 0 false;
              mkItem 3 $"Poland Spring WATER BOTTLE" None 1 2 4 true]
             [])
       (mkSeqs 1 4 1) [FuzzyMatchedRemoval $"water bottle"] [] 9).
Proof.
  destruct (fallback_takes_first_holder $"water bottle"
              (mkItem 2 $"Children's water bottle with red spout" None 1 2 1 true)
              bottles (mkSeqs 1 4 1) [] 9) as (H & _).
  - reflexivity.
  - intros r [<-|[<-|[<-|[]]]]; vm_compute; reflexivity.
  - vm_compute. reflexivity.
  - unfold ids_unique. vm_compute. repeat constructor; simpl; intuition discriminate.
  - repeat constructor; vm_compute; congruence.
  - exact H.
Defined.

(** ** A scan on a sound connection *)

Lemma sound_eta Sc E B w :
  sound Sc E B w ->
  w = idle (durable w) (seqs w) (console w) [] (clock w).
Proof.
  intros (Hs & Hf & _). rewrite (idle_eta w Hs) at 1. now rewrite Hf.
Qed.

Lemma bounded_weaken B B' r : B <= B' -> bounded B r -> bounded B' r.
Proof. unfold bounded. lia. Qed.

Lemma add_item_sound Sc E B name w :
  sound Sc E B w -> 0 <= B -> B < int4_max -> fits 200 name = true ->
  exists id w', add_item name None w = (Ok id, w') /\ sound Sc E (B + 1) w'.
Proof.
  intros Hw HB0 HB Hf. rewrite (sound_eta Sc E B w Hw).
  destruct Hw as (_ & _ & HS & HE & Hq).
  generalize dependent (durable w). intros db HS HE Hq.
  generalize (seqs w) (console w) (clock w). intros sq out now.
  unfold add_item. run. unfold select_item.
  destruct (find (name_eq name) (pantry_items db)) as [r0|]; simpl.
  - unfold update_seen, update_items.
    assert (Eok : forallb (fun r => in_int4 (current_quantity r + 1))
                    (filter (has_id (item_id r0)) (pantry_items db)) = true).
    { apply forallb_forall. intros r Hr. apply filter_In in Hr.
      destruct Hr as [Hr _]. rewrite Forall_forall in Hq. specialize (Hq r Hr).
      unfold bounded, in_int4, int4_min, int4_max in *.
      apply andb_true_iff. split; apply Z.leb_le; lia. }
    rewrite Eok. simpl. eexists _, _. split; [reflexivity|].
    repeat split; simpl; try assumption.
    apply Forall_map. eapply Forall_impl; [|exact Hq].
    intros r Hr. destruct (has_id (item_id r0) r).
    + unfold bounded in *. simpl. lia.
    + eapply bounded_weaken; [|exact Hr]. lia.
  - unfold insert_item. rewrite Hf. simpl. eexists _, _. split; [reflexivity|].
    repeat split; simpl; try assumption.
    apply Forall_app. split.
    + eapply Forall_impl; [|exact Hq]. intros r. apply bounded_weaken. lia.
    + constructor; [|constructor]. unfold bounded, int4_min. simpl. lia.
Qed.

Lemma bounded_taken_away B now r : 0 <= B -> bounded B r -> bounded B (taken_away now r).
Proof. unfold bounded, int4_min. simpl. lia. Qed.

Lemma bounded_kept_by_update_taken B cond :
  0 <= B ->
  keeps (fun db => Forall (bounded B) (pantry_items db)) (update_taken cond).
Proof.
  intros HB now sq db a sq' db' H HP.
  apply update_taken_inr in H. destruct H as (_ & -> & _). simpl.
  apply Forall_map. eapply Forall_impl; [|exact HP].
  intros r Hr. destruct (cond r); [now apply bounded_taken_away | exact Hr].
Qed.

Lemma remove_item_sound Sc E B name w :
  sound Sc E B w -> 0 <= B -> B <= int4_max ->
  exists w', remove_item name w = (Ok tt, w') /\ sound Sc E B w'.
Proof.
  intros Hw HB0 HB. rewrite (sound_eta Sc E B w Hw).
  destruct Hw as (_ & _ & HS & HE & Hq).
  assert (Hd : Forall decrementable (pantry_items (durable w))).
  { eapply Forall_impl; [|exact Hq]. unfold bounded, decrementable. intros r. lia. }
  destruct (remove_item_runs name (durable w) (seqs w) (console w) (clock w) Hd)
    as (items' & lines & Eq).
  pose proof (remove_item_preserves
                (fun db => Forall (bounded B) (pantry_items db)) name
                (fun cond => bounded_kept_by_update_taken B cond HB0)
                (durable w) (seqs w) (console w) [] (clock w) Hq) as Hq'.
  rewrite Eq in *. simpl in Hq'.
  eexists. split; [reflexivity|].
  repeat split; simpl; assumption.
Qed.

Lemma log_change_sound Sc E B scan name kind det w :
  sound Sc E B w ->
  in_int4 scan = true ->
  existsb (fun s => scan_id s =? scan) Sc = true ->
  fits 200 name = true -> fits 20 kind = true ->
  exists w', log_change scan name kind det w = (Ok tt, w')
             /\ sound Sc (E ++ [(scan, name, kind, det)]) B w'.
Proof.
  intros Hw Hi Hs Hn Hk. rewrite (sound_eta Sc E B w Hw).
  destruct Hw as (_ & _ & HS & HE & Hq). rewrite <- HS in Hs.
  rewrite (log_change_ok scan name kind det (durable w) (seqs w) (console w) []
             (clock w) eq_refl Hi Hn Hk Hs).
  eexists. split; [reflexivity|].
  repeat split; simpl; try assumption.
  rewrite map_app, HE. reflexivity.
Qed.

Lemma save_added_sound Sc E B scan item w :
  sound Sc E B w -> 0 <= B -> B < int4_max ->
  in_int4 scan = true ->
  existsb (fun s => scan_id s =? scan) Sc = true ->
  exists w', save_added scan item w = (Ok tt, w')
             /\ sound Sc (E ++ entries_of $"added" scan [item]) (B + 1) w'.
Proof.
  intros Hw HB0 HB Hi Hs. unfold save_added.
  destruct (add_item_sound Sc E B (extract_item_name item) w Hw HB0 HB
              (fits_extract_item_name item)) as (id & w1 & E1 & Hw1).
  destruct (log_change_sound Sc E (B + 1) scan (extract_item_name item) $"added"
              (Some item) w1 Hw1 Hi Hs (fits_extract_item_name item) eq_refl)
    as (w2 & E2 & Hw2).
  exists w2. split; [|exact Hw2].
  unfold bind. now rewrite E1.
Qed.

Lemma save_removed_sound Sc E B scan item w :
  sound Sc E B w -> 0 <= B -> B <= int4_max ->
  in_int4 scan = true ->
  existsb (fun s => scan_id s =? scan) Sc = true ->
  exists w', save_removed scan item w = (Ok tt, w')
             /\ sound Sc (E ++ entries_of $"removed" scan [item]) B w'.
Proof.
  intros Hw HB0 HB Hi Hs. unfold save_removed.
  destruct (remove_item_sound Sc E B (extract_item_name item) w Hw HB0 HB)
    as (w1 & E1 & Hw1).
  destruct (log_change_sound Sc E B scan (extract_item_name item) $"removed"
              (Some item) w1 Hw1 Hi Hs (fits_extract_item_name item) eq_refl)
    as (w2 & E2 & Hw2).
  exists w2. split; [|exact Hw2].
  unfold bind. now rewrite E1.
Qed.

Lemma save_changed_sound Sc E B scan item w :
  sound Sc E B w ->
  in_int4 scan = true ->
  existsb (fun s => scan_id s =? scan) Sc = true ->
  exists w', save_changed scan item w = (Ok tt, w')
             /\ sound Sc (E ++ entries_of $"quantity_changed" scan [item]) B w'.
Proof.
  intros Hw Hi Hs. unfold save_changed.
  apply (log_change_sound Sc E B scan (extract_item_name item) $"quantity_changed"
           (Some item) w Hw Hi Hs (fits_extract_item_name item) eq_refl).
Qed.

Lemma entries_of_cons kind scan item items :
  entries_of kind scan (item :: items)
  = entries_of kind scan [item] ++ entries_of kind scan items.
Proof. reflexivity. Qed.

Lemma for_each_added_sound Sc scan items :
  in_int4 scan = true ->
  existsb (fun s => scan_id s =? scan) Sc = true ->
  forall E B w,
    sound Sc E B w -> 0 <= B -> B + Z.of_nat (List.length items) <= int4_max ->
    exists w', for_each items (save_added scan) w = (Ok tt, w')
               /\ sound Sc (E ++ entries_of $"added" scan items)
                    (B + Z.of_nat (List.length items)) w'.
Proof.
  intros Hi Hs. induction items as [|item items IH]; intros E B w Hw HB0 HB.
  - exists w. split; [reflexivity|]. simpl. now rewrite app_nil_r, Z.add_0_r.
  - change (List.length (item :: items)) with (S (List.length items)) in *.
    destruct (save_added_sound Sc E B scan item w Hw HB0 ltac:(lia) Hi Hs)
      as (w1 & E1 & Hw1).
    destruct (IH _ _ w1 Hw1 ltac:(lia) ltac:(lia)) as (w2 & E2 & Hw2).
    exists w2. split.
    + simpl. unfold bind. now rewrite E1.
    + rewrite entries_of_cons, app_assoc.
      replace (B + Z.of_nat (S (List.length items)))
        with (B + 1 + Z.of_nat (List.length items)) by lia.
      exact Hw2.
Qed.

Lemma for_each_removed_sound Sc scan B items :
  in_int4 scan = true ->
  existsb (fun s => scan_id s =? scan) Sc = true ->
  0 <= B -> B <= int4_max ->
  forall E w,
    sound Sc E B w ->
    exists w', for_each items (save_removed scan) w = (Ok tt, w')
               /\ sound Sc (E ++ entries_of $"removed" scan items) B w'.
Proof.
  intros Hi Hs HB0 HB. induction items as [|item items IH]; intros E w Hw.
  - exists w. split; [reflexivity|]. simpl. now rewrite app_nil_r.
  - destruct (save_removed_sound Sc E B scan item w Hw HB0 HB Hi Hs)
      as (w1 & E1 & Hw1).
    destruct (IH _ w1 Hw1) as (w2 & E2 & Hw2).
    exists w2. split.
    + simpl. unfold bind. now rewrite E1.
    + rewrite entries_of_cons, app_assoc. exact Hw2.
Qed.

Lemma for_each_changed_sound Sc scan B items :
  in_int4 scan = true ->
  existsb (fun s => scan_id s =? scan) Sc = true ->
  forall E w,
    sound Sc E B w ->
    exists w', for_each items (save_changed scan) w = (Ok tt, w')
               /\ sound Sc (E ++ entries_of $"quantity_changed" scan items) B w'.
Proof.
  intros Hi Hs. induction items as [|item items IH]; intros E w Hw.
  - exists w. split; [reflexivity|]. simpl. now rewrite app_nil_r.
  - destruct (save_changed_sound Sc E B scan item w Hw Hi Hs) as (w1 & E1 & Hw1).
    destruct (IH _ w1 Hw1) as (w2 & E2 & Hw2).
    exists w2. split.
    + simpl. unfold bind. now rewrite E1.
    + rewrite entries_of_cons, app_assoc. exact Hw2.
Qed.

(** X14: on a connection without faults, with an image path, a cost and
    token counts that their columns can hold and quantities that leave
    room for the additions, [save_to_database] goes through: it appends
    the scan row and, in this order, one [added] record per added item,
    one [removed] record per removed item and one [quantity_changed]
    record per changed item, each under the new scan id, the normalized
    name and the full item text; it prints its summary last and leaves no
    transaction open. *)
Theorem scan_is_recorded (path : option str) (text : str)
    (cost tin tout : Z) (db : Database) (sq : Seqs) (out : list Line)
    (now : timestamp) :
  fits_opt 500 path = true ->
  (Z.abs cost <? 10000000000) && in_int4 tin && in_int4 tout = true ->
  in_int4 (next_scan_id sq) = true ->
  Z.of_nat (List.length (added (parse_changes text))) <= int4_max ->
  Forall (bounded (int4_max - Z.of_nat (List.length (added (parse_changes text)))))
    (pantry_items db) ->
  let changes := parse_changes text in
  let res := save_to_database true path text cost tin tout
               (idle db sq out [] now) in
  fst res = Ok tt
  /\ session (snd res) = None
  /\ pantry_scans (durable (snd res))
     = pantry_scans db ++ [mkScan (next_scan_id sq) now path text cost tin tout]
  /\ map entry (inventory_changes (durable (snd res)))
     = map entry (inventory_changes db) ++ scan_entries (next_scan_id sq) changes
  /\ exists lines,
       console (snd res)
       = lines ++ [SavedToDatabase (List.length (added changes))
                     (List.length (removed changes))
                     (List.length (changed changes))].
Proof.
  intros Hp Hn Hid Hlen Hq changes res. subst res changes.
  set (changes := parse_changes text) in *.
  set (id := next_scan_id sq).
  set (Sc := pantry_scans db ++ [mkScan id now path text cost tin tout]).
  set (B := int4_max - Z.of_nat (List.length (added changes))) in *.
  assert (Hs : existsb (fun s => scan_id s =? id) Sc = true).
  { unfold Sc. rewrite existsb_app. simpl. rewrite Z.eqb_refl.
    now rewrite orb_true_r. }
  rewrite save_to_database_unfold. unfold try_except.
  rewrite (bind_ok _ _ _ _ _
             (save_scan_ok path text cost tin tout db sq out [] now eq_refl Hp Hn)).
  fold id. fold changes.
  match goal with
  | |- context [save_events id changes ?w] => set (w0 := w)
  end.
  assert (H0 : sound Sc (map entry (inventory_changes db)) B w0)
    by (repeat split; assumption).
  destruct (for_each_added_sound Sc id (added changes) Hid Hs _ _ w0 H0
              ltac:(unfold B; lia) ltac:(unfold B; lia)) as (w1 & E1 & H1).
  replace (B + Z.of_nat (List.length (added changes))) with int4_max in H1
    by (unfold B; lia).
  destruct (for_each_removed_sound Sc id int4_max (removed changes) Hid Hs
              ltac:(unfold int4_max; lia) ltac:(lia) _ w1 H1) as (w2 & E2 & H2).
  destruct (for_each_changed_sound Sc id int4_max (changed changes) Hid Hs _ w2 H2)
    as (w3 & E3 & H3).
  assert (Ev : save_events id changes w0
               = (Ok tt,
                  mkWorld (durable w3) (session w3) (seqs w3)
                    (console w3
                     ++ [SavedToDatabase (List.length (added changes))
                           (List.length (removed changes))
                           (List.length (changed changes))])
                    (faults w3) (clock w3))).
  { unfold save_events, bind. rewrite E1, E2, E3. reflexivity. }
  rewrite Ev. cbn [fst snd durable session console].
  destruct H3 as (Hs3 & _ & HS3 & HE3 & _).
  repeat split; try assumption.
  - rewrite HE3. unfold scan_entries. now rewrite <- !app_assoc.
  - eexists. reflexivity.
Qed.

Lemma scan_is_recorded_witness :
  map entry
    (inventory_changes
       (durable (snd (save_to_database true None week_text 5 10 20
                        (idle two_rows (mkSeqs 1 3 1) [] [] 9)))))
  = [(1, $"Kellogg's Froot Loops", $"added", Some $"Kellogg's Froot Loops - 1 box");
     (1, $"milk", $"removed", Some $"milk");
     (1, $"Coke", $"quantity_changed", Some $"Coke (3 -> 2)")].
Proof.
  destruct (scan_is_recorded None week_text 5 10 20 two_rows (mkSeqs 1 3 1) [] 9)
    as (_ & _ & _ & H & _).
  - reflexivity.
  - reflexivity.
  - reflexivity.
  - vm_compute. discriminate.
  - repeat constructor; vm_compute; congruence.
  - rewrite H. vm_compute. reflexivity.
Defined.

(** ** The history of an item *)

Lemma in_insert_desc h l x : In x (insert_desc h l) <-> x = h \/ In x l.
Proof.
  induction l as [|y l IH]; simpl.
  - intuition.
  - destruct (detected y <? detected h); simpl; [intuition|].
    rewrite IH. intuition.
Qed.

Lemma in_sort_desc l x : In x (sort_desc l) <-> In x l.
Proof.
  induction l as [|h l IH]; simpl; [tauto|].
  rewrite in_insert_desc, IH. intuition.
Qed.

Lemma newest_first_insert h l : newest_first l -> newest_first (insert_desc h l).
Proof.
  induction l as [|y l IH]; simpl; [intuition|].
  intros [Hy Hl]. destruct (detected y <? detected h) eqn:E.
  - apply Z.ltb_lt in E. simpl. repeat split; auto.
    intros x [<-|Hx]; [lia|]. specialize (Hy x Hx). lia.
  - apply Z.ltb_ge in E. simpl. split; [|now apply IH].
    intros x Hx. apply in_insert_desc in Hx. destruct Hx as [->|Hx]; auto.
Qed.

Lemma newest_first_sort l : newest_first (sort_desc l).
Proof. induction l; simpl; [exact I | now apply newest_first_insert]. Qed.

Lemma in_joined name db h :
  In h (joined name db) <->
  exists c s, In c (inventory_changes db) /\ In s (pantry_scans db)
    /\ lower (change_item_name c) = lower name
    /\ scan_id s = change_scan_id c
    /\ h = (change_type c, details c, detected_at c, scan_date s).
Proof.
  unfold joined. rewrite in_flat_map. split.
  - intros (c & Hc & Hh).
    destruct (PyStr.eqb (lower (change_item_name c)) (lower name)) eqn:E;
      [|destruct Hh].
    apply str_eqb_eq in E. apply in_map_iff in Hh.
    destruct Hh as (s & <- & Hs). apply filter_In in Hs.
    destruct Hs as [Hs Hid]. apply Z.eqb_eq in Hid.
    exists c, s. auto.
  - intros (c & s & Hc & Hs & Hn & Hid & ->). exists c. split; [exact Hc|].
    apply str_eqb_eq in Hn. rewrite Hn. apply in_map_iff. exists s.
    split; [reflexivity|]. apply filter_In. split; [exact Hs|].
    now apply Z.eqb_eq.
Qed.

Lemma get_item_history_runs name db sq out fl now :
  hd false fl = false ->
  get_item_history name (idle db sq out fl now)
  = (Ok (sort_desc (joined name db)), mkWorld db (Some db) sq out (tl fl) now).
Proof.
  intros Hf. unfold get_item_history, execute, idle, view. simpl.
  rewrite Hf. reflexivity.
Qed.

(** X15: on a connection that answers, [get_item_history] returns, newest
    first, exactly the change records whose item name equals the given
    name up to letter case, each with the date of its scan; the tables are
    left as they are. *)
Theorem get_item_history_rows (name : str) (db : Database) (sq : Seqs)
    (out : list Line) (fl : list bool) (now : timestamp) :
  hd false fl = false ->
  exists rows,
    get_item_history name (idle db sq out fl now)
    = (Ok rows, mkWorld db (Some db) sq out (tl fl) now)
    /\ newest_first rows
    /\ forall h, In h rows <->
         exists c s, In c (inventory_changes db) /\ In s (pantry_scans db)
           /\ lower (change_item_name c) = lower name
           /\ scan_id s = change_scan_id c
           /\ h = (change_type c, details c, detected_at c, scan_date s).
Proof.
  intros Hf. exists (sort_desc (joined name db)). split; [|split].
  - now apply get_item_history_runs.
  - apply newest_first_sort.
  - intros h. rewrite in_sort_desc. apply in_joined.
Qed.

Lemma get_item_history_rows_witness :
  exists rows,
    get_item_history $"MILK" (idle logged_db (mkSeqs 3 2 4) [] [] 30)
    = (Ok rows, mkWorld logged_db (Some logged_db) (mkSeqs 3 2 4) [] [] 30)
    /\ newest_first rows
    /\ forall h, In h rows <->
         exists c s, In c (inventory_changes logged_db)
           /\ In s (pantry_scans logged_db)
           /\ lower (change_item_name c) = lower $"MILK"
           /\ scan_id s = change_scan_id c
           /\ h = (change_type c, details c, detected_at c, scan_date s).
Proof.
  exact (get_item_history_rows $"MILK" logged_db (mkSeqs 3 2 4) [] [] 30 eq_refl).
Defined.

(** X16: a change that [log_change] has recorded is found by
    [get_item_history] under any spelling of its item name that differs in
    letter case only, with its type, its details, the time of the
    recording and the date of its scan. *)
Theorem logged_change_is_in_history (scan : Z) (name kind m : str)
    (det : option str) (s : Scan) (db : Database) (sq : Seqs)
    (out : list Line) (fl : list bool) (now : timestamp) :
  hd false fl = false -> hd false (tl fl) = false ->
  in_int4 scan = true -> fits 200 name = true -> fits 20 kind = true ->
  In s (pantry_scans db) -> scan_id s = scan ->
  lower m = lower name ->
  let w1 := snd (log_change scan name kind det (idle db sq out fl now)) in
  exists rows,
    fst (get_item_history m w1) = Ok rows
    /\ In (kind, det, now, scan_date s) rows.
Proof.
  intros Hf1 Hf2 Hi Hn Hk Hs Hid Hm w1. subst w1.
  assert (Hex : existsb (fun x => scan_id x =? scan) (pantry_scans db) = true).
  { apply existsb_exists. exists s. split; [exact Hs | now apply Z.eqb_eq]. }
  rewrite (log_change_ok scan name kind det db sq out fl now Hf1 Hi Hn Hk Hex).
  cbn [snd]. rewrite get_item_history_runs by exact Hf2.
  eexists. split; [reflexivity|].
  apply in_sort_desc, in_joined.
  exists (mkChange (next_change_id sq) scan name kind det now), s.
  cbn [inventory_changes pantry_scans change_item_name change_scan_id
         change_type details detected_at].
  repeat split; auto.
  apply in_or_app. right. now left.
Qed.

Lemma logged_change_is_in_history_witness :
  exists rows,
    fst (get_item_history $"milk"
           (snd (log_change 2 $"Milk" $"removed" (Some $"Milk (1 gallon)")
                   (idle logged_db (mkSeqs 3 2 4) [] [] 30))))
    = Ok rows
    /\ In ($"removed", Some $"Milk (1 gallon)", 30, 20) rows.
Proof.
  apply (logged_change_is_in_history 2 $"Milk" $"removed" $"milk"
           (Some $"Milk (1 gallon)") (mkScan 2 20 None [] 0 0 0) logged_db
           (mkSeqs 3 2 4) [] [] 30); try reflexivity.
  right. left. reflexivity.
Defined.

Lemma joined_other_name name db items' c :
  PyStr.eqb (lower (change_item_name c)) (lower name) = false ->
  joined name (mkDatabase (pantry_scans db) items' (inventory_changes db ++ [c]))
  = joined name db.
Proof.
  intros H. unfold joined. cbn [inventory_changes pantry_scans].
  rewrite flat_map_app. simpl. rewrite H. now rewrite !app_nil_r.
Qed.

(** X17: a removal that was matched by the fallback is recorded under the
    name that was asked for, not under the name of the row it took from:
    the row has lost a unit, the [removed] record is in the table, and the
    history of the row's own name is what it was before. *)
Theorem fallback_removal_is_not_in_history (scan : Z) (item : str) (m : Item)
    (db : Database) (sq : Seqs) (out : list Line) (now : timestamp) :
  let name := extract_item_name item in
  plain name = true ->
  (forall r, In r (pantry_items db) -> name_eq name r = false) ->
  find (holds_name name) (pantry_items db) = Some m ->
  ids_unique db ->
  Forall decrementable (pantry_items db) ->
  in_int4 scan = true ->
  existsb (fun s => scan_id s =? scan) (pantry_scans db) = true ->
  let w1 := snd (save_removed scan item (idle db sq out [] now)) in
  In (taken_away now m) (pantry_items (durable w1))
  /\ (exists c, In c (inventory_changes (durable w1))
                /\ entry c = (scan, name, $"removed", Some item))
  /\ fst (get_item_history (item_name m) w1)
     = fst (get_item_history (item_name m) (idle db sq out [] now)).
Proof.
  intros name Hp Hno Hm Hi Hd Hs Hex w1. subst w1.
  destruct (remove_item_fallback name m db sq out now Hp Hno Hm Hi Hd)
    as (E & Hin & _).
  unfold save_removed. fold name. rewrite (bind_ok _ _ _ _ _ E).
  rewrite E in Hin. cbn [snd durable idle pantry_items] in Hin.
  rewrite (log_change_ok scan name $"removed" (Some item)
             (mkDatabase (pantry_scans db)
                (map (fun x => if has_id (item_id m) x then taken_away now x else x)
                   (pantry_items db))
                (inventory_changes db))
             sq _ [] now eq_refl Hs (fits_extract_item_name item) eq_refl Hex).
  cbn [snd durable idle pantry_items inventory_changes pantry_scans].
  split; [exact Hin|]. split.
  - eexists. split; [apply in_or_app; right; left; reflexivity | reflexivity].
  - rewrite !get_item_history_runs by reflexivity. cbn [fst].
    rewrite joined_other_name; [reflexivity|].
    cbn [change_item_name].
    assert (Hin0 : In m (pantry_items db)) by (apply find_some in Hm; tauto).
    specialize (Hno m Hin0). unfold name_eq in Hno.
    destruct (PyStr.eqb (lower name) (lower (item_name m))) eqn:Eq; [|reflexivity].
    apply str_eqb_eq in Eq. rewrite Eq, str_eqb_refl in Hno. discriminate.
Qed.

Lemma fallback_removal_is_not_in_history_witness :
  fst (get_item_history $"Children's water bottle with red spout"
         (snd (save_removed 1 $"water bottle"
                 (idle bottle_scan_db (mkSeqs 2 3 2) [] [] 9))))
  = Ok [($"added", None, 5, 5)].
Proof.
  destruct (fallback_removal_is_not_in_history 1 $"water bottle"
              (mkItem 2 $"Children's water bottle with red spout" None 1 2 1 true)
              bottle_scan_db (mkSeqs 2 3 2) [] 9) as (_ & _ & H).
  - reflexivity.
  - intros r [<-|[]]; vm_compute; reflexivity.
  - vm_compute. reflexivity.
  - unfold ids_unique. vm_compute. repeat constructor; simpl; intuition.
  - repeat constructor; vm_compute; congruence.
  - reflexivity.
  - reflexivity.
  - refine (eq_trans H _). vm_compute. reflexivity.
Defined.

(** ** The first-run listing *)

Lemma strip_strip s : strip (strip s) = strip s.
Proof. apply strip_fixed; [apply head_ok_strip | apply ends_in_strip]. Qed.

Lemma contains_newline_cons_hd c l :
  eqb_char (ascii_of_nat 10) c = false ->
  Forall (fun x => contains newline x = false) l ->
  Forall (fun x => contains newline x = false) (cons_hd c l).
Proof.
  intros Hc H. destruct l as [|p ps]; simpl.
  - constructor; [|constructor].
    rewrite contains_cons, startswith_newline, Hc. reflexivity.
  - inversion H; subst. constructor; [|assumption].
    now rewrite contains_cons, startswith_newline, Hc.
Qed.

(** No line holds a line break. *)
Lemma split_newline_lines s :
  Forall (fun x => contains newline x = false) (split newline s).
Proof.
  induction s as [|c s IH].
  - repeat constructor.
  - rewrite split_newline_cons.
    destruct (eqb_char (ascii_of_nat 10) c) eqn:E.
    + constructor; [reflexivity | exact IH].
    + now apply contains_newline_cons_hd.
Qed.

Lemma contains_lstrip_by sub p s :
  contains sub s = false -> contains sub (lstrip_by p s) = false.
Proof.
  intros H. destruct (lstrip_by_suffix p s) as [l E].
  apply (contains_part sub l _ []). now rewrite app_nil_r, <- E.
Qed.

Lemma initial_item_valid raw item :
  contains newline raw = false ->
  initial_item raw = Some item ->
  item <> [] /\ strip item = item /\ contains newline item = false.
Proof.
  unfold initial_item. intros Hn.
  destruct (startswith $"-" (strip raw)); [|discriminate].
  set (it := strip (lstrip_by (mem_char $"- ") (strip raw))).
  assert (Hs : strip it = it) by apply strip_strip.
  assert (Hc : contains newline it = false)
    by (apply contains_strip, contains_lstrip_by, contains_strip, Hn).
  clearbody it.
  destruct (is_empty it) eqn:E; [discriminate|].
  intros H. inversion H; subst item. clear H. repeat split; try assumption.
  intros Hnil. rewrite Hnil in E. discriminate.
Qed.

Lemma ends_in_cons p c s : s <> [] -> ends_in p (c :: s) = ends_in p s.
Proof. destruct s; [congruence | reflexivity]. Qed.

Lemma lstrip_by_all p s : forallb p s = true -> lstrip_by p s = [].
Proof.
  induction s as [|c s IH]; [reflexivity|]. simpl.
  intros H. apply andb_true_iff in H. destruct H as [-> H]. now apply IH.
Qed.

Lemma initial_item_of_item item :
  listable (ItemLine item) = true ->
  initial_item (listing_line (ItemLine item)) = Some item.
Proof.
  unfold listable. intros H.
  repeat (apply andb_true_iff in H; destruct H as [H ?]).
  repeat match goal with
         | H : negb _ = true |- _ => apply negb_true_iff in H
         end.
  destruct item as [|c item]; [discriminate|].
  assert (Hs : strip (c :: item) = c :: item) by now apply strip_fixed.
  assert (Hc : mem_char $"- " c = false).
  { match goal with
    | H : head_ok _ = true |- _ => simpl in H; apply negb_true_iff in H
    end.
    match goal with
    | H : startswith _ (c :: item) = false |- _ => rename H into Hd
    end.
    change (startswith $"-" (c :: item)) with (eqb_char c "-" && true) in Hd.
    rewrite andb_true_r in Hd.
    unfold mem_char. cbn [existsb of_string list_ascii_of_string].
    assert (He : forall a b, eqb_char a b = eqb_char b a).
    { intros a b. unfold eqb_char. apply Ascii.eqb_sym. }
    rewrite ?(He _ c), Hd. simpl.
    destruct (eqb_char c " ") eqn:E; [|reflexivity].
    apply eqb_char_eq in E. subst c. discriminate. }
  unfold initial_item, listing_line.
  assert (Hl : strip ($"- " ++ c :: item) = $"- " ++ c :: item).
  { apply strip_fixed; [reflexivity|].
    change ($"- " ++ c :: item) with ("-"%char :: " "%char :: c :: item).
    rewrite !ends_in_cons by discriminate. assumption. }
  rewrite Hl.
  change (startswith $"-" ($"- " ++ c :: item)) with true. cbv iota.
  change (lstrip_by (mem_char $"- ") ($"- " ++ c :: item))
    with (lstrip_by (mem_char $"- ") (c :: item)).
  cbn [lstrip_by]. rewrite Hc, Hs. reflexivity.
Qed.

Lemma initial_item_of_other text :
  listable (OtherLine text) = true ->
  initial_item (listing_line (OtherLine text)) = None.
Proof.
  unfold listable, initial_item, listing_line. intros H.
  apply andb_true_iff in H. destruct H as [_ H].
  apply orb_true_iff in H. destruct H as [H|H].
  - apply negb_true_iff in H. now rewrite H.
  - destruct (startswith $"-" (strip text)); [|reflexivity].
    now rewrite (lstrip_by_all _ _ H).
Qed.

Lemma listing_line_no_newline l :
  listable l = true -> contains newline (listing_line l) = false.
Proof.
  destruct l as [item|text]; unfold listable, listing_line; intros H.
  - repeat (apply andb_true_iff in H; destruct H as [H ?]).
    match goal with
    | H : negb (contains newline item) = true |- _ =>
        apply negb_true_iff in H; rename H into Hn
    end.
    change ($"- " ++ item) with ("-"%char :: " "%char :: item).
    rewrite !contains_cons, !startswith_newline. exact Hn.
  - apply andb_true_iff in H. destruct H as [H _]. now apply negb_true_iff in H.
Qed.

Lemma initial_items_of_listing ls :
  forallb listable ls = true ->
  initial_items_of (map listing_line ls) = listed ls.
Proof.
  induction ls as [|l ls IH]; [reflexivity|].
  cbn [forallb]. intros H. apply andb_true_iff in H. destruct H as [Hl Hls].
  cbn [map initial_items_of]. destruct l as [item|text].
  - rewrite (initial_item_of_item item Hl), (IH Hls). reflexivity.
  - rewrite (initial_item_of_other text Hl), (IH Hls). reflexivity.
Qed.

(** X5: the items read from the first-run listing are those of its dash
    lines and nothing else.  Whatever the response text, every item read
    is non-empty, has no white space at either end and holds no line
    break.  A listing whose items are written as dash lines is read back as
    exactly these items, in their order: lines that do not start with a
    dash, and lines made of dashes and blanks only, give no item. *)
Theorem initial_items_are_the_dash_lines :
  (forall response_text : str,
      Forall (fun item => item <> [] /\ strip item = item
                          /\ contains newline item = false)
        (initial_items response_text))
  /\ (forall ls : list ListingLine,
        forallb listable ls = true ->
        initial_items (listing_text ls) = listed ls).
Proof.
  split.
  - intros response_text.
    unfold initial_items. pose proof (split_newline_lines response_text) as H.
    induction H as [|raw lines Hraw _ IH]; simpl; [constructor|].
    destruct (initial_item raw) as [item|] eqn:E; [|exact IH].
    constructor; [|exact IH]. now apply (initial_item_valid raw).
  - intros ls H. unfold initial_items, listing_text.
    destruct ls as [|l ls]; [reflexivity|].
    rewrite split_join.
    + now apply initial_items_of_listing.
    + discriminate.
    + apply Forall_map. apply Forall_forall. intros x Hx.
      apply listing_line_no_newline.
      rewrite forallb_forall in H. now apply H.
Qed.

Lemma initial_items_are_the_dash_lines_witness :
  initial_items (listing_text shelf_listing)
  = [$"Kellogg's Froot Loops - 1 box"; $"**Milk** (1 gallon)"; $"Coke"].
Proof.
  destruct initial_items_are_the_dash_lines as [_ H].
  refine (eq_trans (H shelf_listing _) _); vm_compute; reflexivity.
Defined.

(** ** Cleaning the image directory *)

Lemma remove_entry_keeps name dir e :
  In e dir -> PyStr.eqb (entry_name e) name = false -> In e (remove_entry name dir).
Proof. intros H E. apply filter_In. split; [exact H | now rewrite E]. Qed.

Lemma remove_entry_incl name dir e : In e (remove_entry name dir) -> In e dir.
Proof. intros H. apply filter_In in H. tauto. Qed.

Lemma cleanup_loop_keeps config listing dir n fl e :
  In e dir -> to_delete config e = false ->
  (forall x, In x listing -> entry_name x = entry_name e -> x = e) ->
  In e (fst (cleanup_loop config listing dir n fl)).
Proof.
  revert dir n fl. induction listing as [|x listing IH]; intros dir n fl He Hk Hu;
    [exact He|].
  simpl. destruct (to_delete config x) eqn:Ex.
  - destruct (hd false fl); [exact He|].
    apply IH; [|exact Hk|intros y Hy; apply Hu; now right].
    apply remove_entry_keeps; [exact He|].
    destruct (PyStr.eqb (entry_name e) (entry_name x)) eqn:E; [|reflexivity].
    apply str_eqb_eq in E. rewrite (Hu x (or_introl eq_refl) (eq_sym E)) in Ex.
    congruence.
  - apply IH; [exact He|exact Hk|intros y Hy; apply Hu; now right].
Qed.

Lemma cleanup_loop_incl config listing dir n fl e :
  In e (fst (cleanup_loop config listing dir n fl)) -> In e dir.
Proof.
  revert dir n fl. induction listing as [|x listing IH]; intros dir n fl; [auto|].
  simpl. destruct (to_delete config x).
  - destruct (hd false fl); [auto|].
    intros H. apply IH in H. now apply remove_entry_incl in H.
  - apply IH.
Qed.

Lemma unique_entry dir x e :
  entry_names_unique dir -> In x dir -> In e dir ->
  entry_name x = entry_name e -> x = e.
Proof. intros Hu Hx He E. now apply (NoDup_map_inj entry_name dir). Qed.

(** X18: whatever is in the image directory and whichever deletions fail,
    [cleanup_old_images] creates nothing, and it leaves in place every
    directory, every file whose name does not end in [.jpg], and the
    files named as the current image, the previous image and
    [test_capture.jpg]. *)
Theorem cleanup_spares_what_it_should (config : ImageConfig)
    (dir : list DirEntry) (fl : list bool) (e : DirEntry) :
  entry_names_unique dir ->
  let dir' := fst (cleanup_old_images config dir fl) in
  (In e dir' -> In e dir)
  /\ (In e dir ->
      entry_is_file e = false
      \/ endswith $".jpg" (entry_name e) = false
      \/ entry_name e = CURRENT_IMAGE config
      \/ entry_name e = PREVIOUS_IMAGE config
      \/ entry_name e = $"test_capture.jpg" ->
      In e dir').
Proof.
  intros Hu dir'.
  assert (E : dir' = fst (cleanup_loop config dir dir 0 fl)).
  { subst dir'. unfold cleanup_old_images.
    destruct (cleanup_loop config dir dir 0 fl) as [d [n|]]; reflexivity. }
  rewrite E. split; [apply cleanup_loop_incl|].
  intros He Hk. apply cleanup_loop_keeps; [exact He| |].
  - unfold to_delete, files_to_keep.
    destruct Hk as [H|[H|[H|[H|H]]]].
    + now rewrite H.
    + rewrite H. now rewrite andb_false_r.
    + simpl. rewrite H, str_eqb_refl. simpl. apply andb_false_r.
    + simpl. rewrite H, str_eqb_refl. rewrite orb_true_r. simpl. apply andb_false_r.
    + simpl. rewrite H, str_eqb_refl. rewrite !orb_true_r. simpl. apply andb_false_r.
  - intros x Hx Hn. now apply (unique_entry dir).
Qed.

Lemma image_dir_example_unique : entry_names_unique image_dir_example.
Proof.
  unfold entry_names_unique. vm_compute.
  repeat constructor; simpl; intuition discriminate.
Qed.

Lemma cleanup_spares_what_it_should_witness :
  In (mkDirEntry $"current.jpg" true)
    (fst (cleanup_old_images image_config_example image_dir_example [false; true])).
Proof.
  apply (cleanup_spares_what_it_should image_config_example image_dir_example
           [false; true] (mkDirEntry $"current.jpg" true)
           image_dir_example_unique).
  - left. reflexivity.
  - right. right. left. reflexivity.
Defined.

Lemma filter_filter {A} (f g : A -> bool) l :
  filter f (filter g l) = filter (fun x => g x && f x) l.
Proof.
  induction l as [|x l IH]; [reflexivity|].
  simpl. destruct (g x); simpl; [destruct (f x)|]; now rewrite IH.
Qed.

(** Without failures the loop removes the entries that bear the name of an
    entry to delete of the listing. *)
Lemma cleanup_loop_sound config listing dir n :
  cleanup_loop config listing dir n []
  = (filter (fun e => negb (existsb (PyStr.eqb (entry_name e))
                              (map entry_name (filter (to_delete config) listing))))
       dir,
     Some (n + List.length (filter (to_delete config) listing))%nat).
Proof.
  revert dir n. induction listing as [|x listing IH]; intros dir n.
  - simpl. rewrite Nat.add_0_r. f_equal. induction dir as [|e dir IHd]; [reflexivity|].
    simpl. now rewrite <- IHd.
  - simpl. destruct (to_delete config x) eqn:Ex.
    + simpl. rewrite IH. unfold remove_entry. rewrite filter_filter.
      f_equal; [|f_equal; lia].
      apply filter_ext. intros e. now rewrite negb_orb.
    + apply IH.
Qed.

Lemma same_name_to_delete config dir e :
  entry_names_unique dir -> In e dir ->
  existsb (PyStr.eqb (entry_name e))
    (map entry_name (filter (to_delete config) dir))
  = to_delete config e.
Proof.
  intros Hu He. destruct (to_delete config e) eqn:E.
  - apply existsb_exists. exists (entry_name e). split; [|apply str_eqb_refl].
    apply in_map. apply filter_In. auto.
  - destruct (existsb _ _) eqn:Ex; [|reflexivity].
    apply existsb_exists in Ex. destruct Ex as (nm & Hin & Heq).
    apply in_map_iff in Hin. destruct Hin as (x & <- & Hx).
    apply filter_In in Hx. destruct Hx as [Hx Hd].
    apply str_eqb_eq in Heq.
    rewrite (unique_entry dir x e Hu Hx He (eq_sym Heq)) in Hd. congruence.
Qed.

Lemma cleanup_loop_idle config listing dir n fl :
  (forall e, In e listing -> to_delete config e = false) ->
  cleanup_loop config listing dir n fl = (dir, Some n).
Proof.
  revert dir n fl. induction listing as [|x listing IH]; intros dir n fl H;
    [reflexivity|].
  simpl. rewrite (H x (or_introl eq_refl)). apply IH.
  intros e He. apply H. now right.
Qed.

(** X19: when no deletion fails, [cleanup_old_images] leaves exactly the
    entries it is not meant to delete, in their order, prints the number
    of deletions if there were any, and a second run right after it
    deletes nothing and prints nothing. *)
Theorem cleanup_is_complete (config : ImageConfig) (dir : list DirEntry) :
  entry_names_unique dir ->
  let kept := filter (fun e => negb (to_delete config e)) dir in
  let n := List.length (filter (to_delete config) dir) in
  cleanup_old_images config dir []
  = (kept, if (0 <? n)%nat then [CleanedUp n] else [])
  /\ cleanup_old_images config kept [] = (kept, []).
Proof.
  intros Hu kept n. split.
  - unfold cleanup_old_images. rewrite cleanup_loop_sound. simpl.
    f_equal. apply filter_ext_in. intros e He.
    now rewrite (same_name_to_delete config dir e Hu He).
  - unfold cleanup_old_images. rewrite cleanup_loop_idle; [reflexivity|].
    intros e He. apply filter_In in He. destruct He as [_ He].
    now apply negb_true_iff in He.
Qed.

Lemma cleanup_is_complete_witness :
  cleanup_old_images image_config_example image_dir_example []
  = ([mkDirEntry $"current.jpg" true; mkDirEntry $"previous.jpg" true;
      mkDirEntry $"notes.txt" true; mkDirEntry $"old.jpg" false],
     [CleanedUp 1]).
Proof.
  destruct (cleanup_is_complete image_config_example image_dir_example
              image_dir_example_unique) as [H _].
  rewrite H. vm_compute. reflexivity.
Defined.
